(** * GrowAssignment: request client, response validator, overview cache,
      hybrid search and watchlist store

    A shallow embedding of the non-UI logic of the GrowAssignment
    React-Native client:

    - [Js]: the fragment of JavaScript values and string operations that the
      modelled functions use (truthiness, [typeof], [ToString], [parseFloat],
      [trim], [includes], property access);
    - [Api]: [services/api.ts] ([validateStockData],
      [validateTopGainersResponse], [ApiService.makeRequest],
      [getTopGainers], [getTopLosers]);
    - [StockData]: [hooks/useStockData.ts] and [renderContent] of the movers
      screens;
    - [StockDetails]: the overview cache of [StockDetailsScreen.tsx];
    - [Explore]: [fetchSearchResults] of [ExploreScreen.tsx];
    - [WatchlistModal]: [AddToWatchlistModal.tsx];
    - [Performance]: [utils/performance.ts] ([debounce], [throttle],
      [memoize]);
    - [Grid]: the grid data and the card pages of the screens;
    - [WatchlistScreens]: [WatchlistScreen.tsx] and
      [WatchlistDetailsScreen.tsx];
    - [ModalSession], [OverviewSession]: sequences of user actions on the
      modal and of requests to the overview cache;
    - [Market]: [fetchData] of [ExploreScreen.tsx];
    - [StockCard]: [getVibrantColor];
    - [Samples]: the concrete inputs that the examples are run on.

    Strings are carried by their UTF-8 encoding.  The engine's error
    messages and its [toLowerCase] are parameters. *)

From Stdlib Require Import ZArith NArith Lia Bool.
From Stdlib Require Import Strings.Ascii Numbers.DecimalString.
From stdpp Require Import base option list gmap strings.
From Equations Require Import Equations.

Local Set Warnings "-register-all".

(* ===================================================================== *)
(** * JavaScript values and string operations *)
(* ===================================================================== *)

Module Js.

(** ** Strings *)

(** A JavaScript string is carried by its UTF-8 encoding: a character of the
    ASCII range is one byte, every other character two to four bytes.
    Equality, concatenation and the search for a substring are the same on
    the encoding as on the string (for strings without unpaired
    surrogates, the only ones that have an encoding). *)
Definition bytes (codes : list N) : string :=
  fold_right (fun code s => String (ascii_of_N code) s) EmptyString codes.

(** The characters that [String.prototype.trim] removes and that
    [parseFloat] skips ([WhiteSpace] and [LineTerminator] of ECMA-262, the
    category Zs being that of Unicode 6.3 and later), encoded:
    U+0009 to U+000D, U+0020, U+00A0, U+1680, U+2000 to U+200A, U+2028,
    U+2029, U+202F, U+205F, U+3000 and U+FEFF. *)
Definition white_space : list string :=
  List.map bytes
    [[9]; [10]; [11]; [12]; [13]; [32]; [194; 160]; [225; 154; 128];
     [226; 128; 128]; [226; 128; 129]; [226; 128; 130]; [226; 128; 131];
     [226; 128; 132]; [226; 128; 133]; [226; 128; 134]; [226; 128; 135];
     [226; 128; 136]; [226; 128; 137]; [226; 128; 138];
     [226; 128; 168]; [226; 128; 169]; [226; 128; 175];
     [226; 129; 159]; [227; 128; 128]; [239; 187; 191]]%N.

(** [s] is one white space character. *)
Definition is_space (s : string) : bool := bool_decide (s ∈ white_space).

Definition is_digit (c : ascii) : bool :=
  match c with
  | "0" | "1" | "2" | "3" | "4" | "5" | "6" | "7" | "8" | "9" => true
  | _ => false
  end%char.

(** [s.trimStart()]: the white space characters at the start are removed;
    each of them is one, two or three bytes long. *)
Fixpoint trimStart (s : string) : string :=
  match s with
  | EmptyString => EmptyString
  | String c1 s1 =>
      if is_space (String c1 EmptyString) then trimStart s1 else
      match s1 with
      | EmptyString => s
      | String c2 s2 =>
          if is_space (String c1 (String c2 EmptyString)) then trimStart s2 else
          match s2 with
          | EmptyString => s
          | String c3 s3 =>
              if is_space (String c1 (String c2 (String c3 EmptyString)))
              then trimStart s3 else s
          end
      end
  end.

(** [s.trimEnd()]: going from the end, what is kept of the rest is dropped
    together with the current byte as soon as the two make up one white
    space character. *)
Fixpoint trimEnd (s : string) : string :=
  match s with
  | EmptyString => EmptyString
  | String c s' =>
      let kept := String c (trimEnd s') in
      if is_space kept then EmptyString else kept
  end.

(** [s.trim()] *)
Definition trim (s : string) : string := trimEnd (trimStart s).


(** [s.includes(t)]: [t] occurs in [s] as a contiguous substring. *)
Fixpoint includes (s t : string) : bool :=
  String.prefix t s ||
  match s with
  | EmptyString => false
  | String _ s' => includes s' t
  end.

Definition str_eqb (s t : string) : bool := bool_decide (s = t).

(** [c] occurs in [s]. *)
Fixpoint has_char (c : ascii) (s : string) : bool :=
  match s with
  | EmptyString => false
  | String d s' => bool_decide (d = c) || has_char c s'
  end.

(** [xs.join(sep)] on already converted elements. *)
Fixpoint join (sep : string) (xs : list string) : string :=
  match xs with
  | [] => ""
  | [x] => x
  | x :: rest => x +:+ sep +:+ join sep rest
  end.

(** ** Values *)

(** The values a decoded JSON document is made of, plus [undefined] (the
    result of reading a property that is not there).  A number is carried
    by the string that [Number::toString] gives for it: the modelled code
    observes numbers only through truthiness and through string
    conversion.  An object is its list of own properties. *)
Inductive JsVal : Type :=
| JUndefined
| JNull
| JBool (b : bool)
| JNum (repr : string)
| JStr (s : string)
| JArr (items : list JsVal)
| JObj (fields : list (string * JsVal)).

Inductive JsType : Set :=
| TUndefined | TObject | TBoolean | TNumber | TString.

Global Instance JsType_eq_dec : EqDecision JsType.
Proof. solve_decision. Defined.

(** [typeof v] *)
Definition typeof (v : JsVal) : JsType :=
  match v with
  | JUndefined => TUndefined
  | JNull => TObject
  | JBool _ => TBoolean
  | JNum _ => TNumber
  | JStr _ => TString
  | JArr _ => TObject
  | JObj _ => TObject
  end.

(** [Array.isArray(v)] *)
Definition isArray (v : JsVal) : bool :=
  match v with JArr _ => true | _ => false end.

(** [ToBoolean]: what [if (v)], [!v], [v || w] and [v ? a : b] test. *)
Definition truthy (v : JsVal) : bool :=
  match v with
  | JUndefined | JNull => false
  | JBool b => b
  | JNum r => negb (str_eqb r "0" || str_eqb r "NaN")
  | JStr s => negb (str_eqb s "")
  | JArr _ | JObj _ => true
  end.

(** Own property lookup in an object literal. *)
Fixpoint assoc (k : string) (fields : list (string * JsVal)) : JsVal :=
  match fields with
  | [] => JUndefined
  | (k', v) :: rest => if str_eqb k' k then v else assoc k rest
  end.

(** [Object.prototype.hasOwnProperty.call(v, k)] on a decoded object. *)
Definition has_own (k : string) (fields : list (string * JsVal)) : bool :=
  existsb (fun kv => str_eqb kv.1 k) fields.

(** [ToString], as applied by [parseFloat], [new Error(v)] and
    [Array.prototype.join]: the text of a value, or [None] when the
    conversion throws a [TypeError].  An array is joined
    ([Array.prototype.toString]), [null] and [undefined] elements giving the
    empty string.  An object is converted by its [toString] method: the
    inherited one gives "[object Object]"; an own property named [toString]
    hides it, and since no decoded value can be called (and the inherited
    [valueOf] returns the object itself) the conversion throws. *)
Fixpoint text (v : JsVal) : option string :=
  match v with
  | JUndefined => Some "undefined"
  | JNull => Some "null"
  | JBool true => Some "true"
  | JBool false => Some "false"
  | JNum r => Some r
  | JStr s => Some s
  | JArr items =>
      join ","
        <$> (fix elements (xs : list JsVal) : option (list string) :=
               match xs with
               | [] => Some []
               | x :: rest =>
                   match (match x with
                          | JUndefined | JNull => Some ""
                          | _ => text x
                          end) with
                   | Some t =>
                       match elements rest with
                       | Some ts => Some (t :: ts)
                       | None => None
                       end
                   | None => None
                   end
               end) items
  | JObj fields =>
      if has_own "toString" fields then None else Some "[object Object]"
  end.

(** What [parseFloat] yields, as far as the callers tell results apart:
    [NaN], an infinity (the literal [Infinity], signed or not), or the value
    of a decimal literal. *)
Inductive ParsedFloat : Set := PNaN | PInfinity | PDecimal.

Definition strip_sign (s : string) : string :=
  match s with
  | String c r => if bool_decide (c = "+"%char) || bool_decide (c = "-"%char)
                  then r else s
  | EmptyString => s
  end.

(** A [StrDecimalLiteral] without sign starts with a digit, or with a dot
    followed by a digit. *)
Definition starts_decimal (s : string) : bool :=
  match s with
  | String c r =>
      is_digit c ||
      (bool_decide (c = "."%char) &&
       match r with String d _ => is_digit d | EmptyString => false end)
  | EmptyString => false
  end.

(** [parseFloat(s)] on a string: leading white space is skipped, then the
    longest prefix that is a [StrDecimalLiteral] is taken; [NaN] when there
    is none. *)
Definition parseFloat_str (s : string) : ParsedFloat :=
  let u := strip_sign (trimStart s) in
  if String.prefix "Infinity" u then PInfinity
  else if starts_decimal u then PDecimal
  else PNaN.

(** [parseFloat(v)] where [v] has a text. *)
Definition parseFloat (v : JsVal) : option ParsedFloat := parseFloat_str <$> text v.

(** [isNaN(p)] *)
Definition isNaN (p : ParsedFloat) : bool :=
  match p with PNaN => true | _ => false end.

(** [!isNaN(parseFloat(v))] evaluates to [true]. *)
Definition numeric (v : JsVal) : bool :=
  match parseFloat v with
  | Some p => negb (isNaN p)
  | None => false
  end.

(** ** Exceptions *)

(** An [Error] object: [error.name] and [error.message]. *)
Record JsError : Set := mkError { name : string; message : string }.

Global Instance JsError_eq_dec : EqDecision JsError.
Proof. solve_decision. Defined.

(** [new Error(msg)] *)
Definition Error (msg : string) : JsError := mkError "Error" msg.

(** A computation that returns or throws. *)
Inductive Exc (A : Type) : Type :=
| Ok (a : A)
| Throw (e : JsError).
Global Arguments Ok {A} a.
Global Arguments Throw {A} e.

Definition bind {A B} (m : Exc A) (k : A -> Exc B) : Exc B :=
  match m with
  | Ok a => k a
  | Throw e => Throw e
  end.

(** [ToString(v)]; [conversionMessage] is the message that the engine puts
    in the [TypeError] of a failed conversion. *)
Definition to_string (conversionMessage : string) (v : JsVal) : Exc string :=
  match text v with
  | Some t => Ok t
  | None => Throw (mkError "TypeError" conversionMessage)
  end.

(** [v[k]] and [v.k] on a value other than [null] and [undefined], for keys
    that name no built-in member (the modelled code reads only such keys
    from decoded values).  Reading a property of [null] or [undefined]
    throws a [TypeError], whose message is the engine's. *)
Definition field (v : JsVal) (k : string) : JsVal :=
  match v with
  | JObj fields => assoc k fields
  | _ => JUndefined
  end.

Definition get (typeErrorMessage : string) (v : JsVal) (k : string) : Exc JsVal :=
  match v with
  | JUndefined | JNull => Throw (mkError "TypeError" typeErrorMessage)
  | _ => Ok (field v k)
  end.

(** [v.trim()]: defined on strings only; on other values [v.trim] is not a
    function. *)
Definition call_trim (typeErrorMessage : string) (v : JsVal) : Exc string :=
  match v with
  | JStr s => Ok (trim s)
  | _ => Throw (mkError "TypeError" typeErrorMessage)
  end.

End Js.

(** Sequencing of computations that may throw. *)
Notation "'let!' x ':=' m 'in' k" := (Js.bind m (fun x => k))
  (at level 10, x name, m at level 100, k at level 200).

(* ===================================================================== *)
(** * services/api.ts *)
(* ===================================================================== *)

Module Api.
Import Js.

(** [API_CONFIG] *)
Definition TIMEOUT : N := 10000.
Definition RETRY_ATTEMPTS : nat := 3.
Definition RETRY_DELAY : N := 1000.
Definition BASE_URL : string := "https://www.alphavantage.co".

(** [ENDPOINTS.TOP_GAINERS_LOSERS] *)
Definition TOP_GAINERS_LOSERS : string := "/query?function=TOP_GAINERS_LOSERS".

(** [TopGainersResponse], as [validateTopGainersResponse] builds it. *)
Record TopGainersResponse : Type := mkResponse {
  top_gainers : list JsVal;
  top_losers : list JsVal;
  last_updated_utc : JsVal
}.

(** [xs.filter(f)] for a callback that may throw: elements are visited in
    order and the first exception ends the traversal. *)
Fixpoint filterM {A : Type} (f : A -> Exc bool) (xs : list A) : Exc (list A) :=
  match xs with
  | [] => Ok []
  | x :: rest =>
      let! keep := f x in
      let! kept := filterM f rest in
      Ok (if keep then x :: kept else kept)
  end.

Definition is_undefined (v : JsVal) : bool :=
  match v with JUndefined => true | _ => false end.

(** ** The contract of the movers validation *)

(** An optional numeric field is accepted when it is absent or when
    [parseFloat] reads a number at its start. *)
Definition absent_or_numeric (v : JsVal) : bool :=
  is_undefined v || numeric v.

(** The entries that the validation keeps: objects whose ticker is a string
    with something else than white space in it, whose price is truthy and
    starts with a number, and whose change fields are absent or start with a
    number. *)
Definition kept_entry (item : JsVal) : bool :=
  match item with
  | JObj fields =>
      match assoc "ticker" fields with
      | JStr t => negb (str_eqb (trim t) "")
      | _ => false
      end
      && truthy (assoc "price" fields)
      && numeric (assoc "price" fields)
      && absent_or_numeric (assoc "change_amount" fields)
      && absent_or_numeric (assoc "change_percentage" fields)
  | _ => false
  end.

(** The movers of a payload field: the kept entries of an array, nothing for
    any other value. *)
Definition kept_entries (v : JsVal) : list JsVal :=
  match v with
  | JArr items => List.filter kept_entry items
  | _ => []
  end.

(** A value that [ToString] cannot convert. *)
Definition unreadable (v : JsVal) : bool :=
  match text v with
  | Some _ => false
  | None => true
  end.

(** The entries on which the validation throws instead of deciding: objects
    that pass the test of the ticker and have a truthy price, where
    [parseFloat] is given a value that cannot be converted: the price, or,
    the price being numeric, a change amount that is there, or, the change
    amount being absent or numeric, a change percentage that is there. *)
Definition raising_entry (item : JsVal) : bool :=
  match item with
  | JObj fields =>
      match assoc "ticker" fields with
      | JStr t => negb (str_eqb (trim t) "")
      | _ => false
      end
      && truthy (assoc "price" fields)
      && (unreadable (assoc "price" fields)
          || numeric (assoc "price" fields)
             && (unreadable (assoc "change_amount" fields)
                 || absent_or_numeric (assoc "change_amount" fields)
                    && unreadable (assoc "change_percentage" fields)))
  | _ => false
  end.

(** A movers field on which the validation throws: an array with such an
    entry. *)
Definition raising (v : JsVal) : bool :=
  match v with
  | JArr items => existsb raising_entry items
  | _ => false
  end.

(** [Number.isFinite] of a parse result.  (A decimal literal beyond the
    range of doubles also reads as an infinity; it is counted as finite
    here, which only favours the reading below.) *)
Definition isFinite (p : ParsedFloat) : bool :=
  match p with PDecimal => true | _ => false end.

Definition absent_or_finite (v : JsVal) : bool :=
  is_undefined v || from_option isFinite false (parseFloat v).

(** The entries kept according to the specification's wording: objects with
    a non-empty string ticker and a price that parses as a number, whose
    change fields, when present, parse as finite numbers. *)
Definition specified_entry (item : JsVal) : bool :=
  match item with
  | JObj fields =>
      match assoc "ticker" fields with
      | JStr t => negb (str_eqb t "")
      | _ => false
      end
      && numeric (assoc "price" fields)
      && absent_or_finite (assoc "change_amount" fields)
      && absent_or_finite (assoc "change_percentage" fields)
  | _ => false
  end.

(** The field that a payload signals an error with: its truthy
    ['Error Message'], else its truthy ['Note']. *)
Definition sentinel (data : JsVal) : option JsVal :=
  if truthy (field data "Error Message")
  then Some (field data "Error Message")
  else if truthy (field data "Note")
  then Some (field data "Note")
  else None.

(** The message that a payload signals an error with: [None] when it has no
    truthy sentinel field, [Some None] when that field has no text. *)
Definition sentinel_message (data : JsVal) : option (option string) :=
  text <$> sentinel data.

(** The error that reading a payload with a truthy sentinel field ends
    with: [new Error(text)], or the [TypeError] of the conversion when the
    field has no text. *)
Definition sentinel_error (conversionMessage : string) (data : JsVal)
  : option JsError :=
  match sentinel_message data with
  | Some (Some msg) => Some (Error msg)
  | Some None => Some (mkError "TypeError" conversionMessage)
  | None => None
  end.

(** A payload contains a sentinel field. *)
Definition has_sentinel (data : JsVal) : bool :=
  negb (is_undefined (field data "Error Message"))
  || negb (is_undefined (field data "Note")).

(** The text embedded in the sentinel field of a payload. *)
Definition embedded_message (data : JsVal) : option string :=
  if negb (is_undefined (field data "Error Message"))
  then text (field data "Error Message")
  else text (field data "Note").

Section Engine.

(** The messages that the JavaScript engine puts in the [TypeError] of a
    property read or method call that fails, and in the [TypeError] of a
    conversion to a string that fails. *)
Variable typeErrorMessage conversionMessage : string.

(** [isNaN(parseFloat(v))] *)
Definition isNaN_parseFloat (v : JsVal) : Exc bool :=
  let! t := to_string conversionMessage v in
  Ok (isNaN (parseFloat_str t)).

(** The callback of [data.filter] in [validateStockData]. *)
Definition validItem (item : JsVal) : Exc bool :=
  (* !item || typeof item !== 'object' *)
  if negb (truthy item) || negb (bool_decide (typeof item = TObject))
  then Ok false else
  (* !item.ticker || typeof item.ticker !== 'string' || item.ticker.trim() === '' *)
  let! ticker := get typeErrorMessage item "ticker" in
  if negb (truthy ticker) then Ok false else
  if negb (bool_decide (typeof ticker = TString)) then Ok false else
  let! trimmed := call_trim typeErrorMessage ticker in
  if str_eqb trimmed "" then Ok false else
  (* !item.price || isNaN(parseFloat(item.price)) *)
  let! price := get typeErrorMessage item "price" in
  if negb (truthy price) then Ok false else
  let! priceNaN := isNaN_parseFloat price in
  if priceNaN then Ok false else
  (* item.change_amount !== undefined && isNaN(parseFloat(item.change_amount)) *)
  let! amount := get typeErrorMessage item "change_amount" in
  let! amountNaN :=
    (if negb (is_undefined amount) then isNaN_parseFloat amount else Ok false) in
  if amountNaN then Ok false else
  (* item.change_percentage !== undefined && isNaN(parseFloat(...)) *)
  let! percentage := get typeErrorMessage item "change_percentage" in
  let! percentageNaN :=
    (if negb (is_undefined percentage) then isNaN_parseFloat percentage
     else Ok false) in
  if percentageNaN then Ok false else
  Ok true.

Definition validateStockData (data : JsVal) : Exc (list JsVal) :=
  if negb (truthy data) || negb (isArray data) then Ok [] else
  match data with
  | JArr items => filterM validItem items
  | _ => Throw (mkError "TypeError" typeErrorMessage)
  end.

Definition validateTopGainersResponse (data : JsVal)
  : Exc (option TopGainersResponse) :=
  if negb (truthy data) || negb (bool_decide (typeof data = TObject))
  then Ok None else
  let! errorMessage := get typeErrorMessage data "Error Message" in
  if truthy errorMessage then Ok None else
  let! note := get typeErrorMessage data "Note" in
  if truthy note then Ok None else
  let! gainers := get typeErrorMessage data "top_gainers" in
  let! validGainers := (if truthy gainers then validateStockData gainers else Ok []) in
  let! losers := get typeErrorMessage data "top_losers" in
  let! validLosers := (if truthy losers then validateStockData losers else Ok []) in
  let! updated := get typeErrorMessage data "last_updated_utc" in
  Ok (Some (mkResponse validGainers validLosers
                (if truthy updated then updated else JUndefined))).

(** ** The request client *)

(** [response.json()]: the decoded body, or the exception the decoder
    throws. *)
Inductive Body : Type :=
| BodyJson (data : JsVal)
| BodyFail (e : JsError).

(** The part of a [Response] that [makeRequest] reads. *)
Record Response : Type := mkHttp {
  ok : bool;
  status : N;
  body : Body
}.

(** How a [fetch] call ends when nothing aborts it. *)
Inductive FetchOutcome : Type :=
| Rejects (e : JsError)
| Resolves (r : Response).

(** One network exchange: the time in milliseconds [fetch] takes to settle,
    and how it settles. *)
Record Attempt : Type := mkAttempt {
  latency : N;
  outcome : FetchOutcome
}.

(** What a call of [makeRequest] does besides returning: the [fetch] calls it
    issues, the aborts of its [AbortController], and the [delay]s it waits. *)
Inductive Event : Type :=
| EvFetch (url : string)
| EvAbort (after_ms : N)
| EvDelay (ms : N).

Record Run (A : Type) : Type := mkRun {
  result : Exc A;
  trace : list Event
}.
Global Arguments mkRun {A} result trace.
Global Arguments result {A} r.
Global Arguments trace {A} r.

Definition is_fetch (ev : Event) : bool :=
  match ev with EvFetch _ => true | _ => false end.

(** The number of [fetch] calls in a trace. *)
Definition fetches (tr : list Event) : nat := length (List.filter is_fetch tr).

(** The [delay]s of a trace, in order. *)
Definition delays (tr : list Event) : list N :=
  omap (fun ev => match ev with EvDelay ms => Some ms | _ => None end) tr.

(** The template literal [`${n}`] for a non-negative integer. *)
Definition N_to_string (n : N) : string := NilZero.string_of_uint (N.to_uint n).

(** The API key of [ENV.ALPHA_VANTAGE_API_KEY]. *)
Variable API_KEY : string.

Definition request_url (endpoint : string) : string :=
  BASE_URL +:+ endpoint +:+ "&apikey=" +:+ API_KEY.

(** The message of the [AbortError] that an aborted [fetch] rejects with. *)
Variable abortMessage : string.

(** [fetch(url, {signal})] raced against
    [setTimeout(() => controller.abort(), TIMEOUT)]: the timer wins when the
    exchange has not settled after [TIMEOUT] milliseconds. *)
Definition fetch_with_timeout (a : Attempt) : Run Response :=
  if (TIMEOUT <=? latency a)%N
  then mkRun (Throw (mkError "AbortError" abortMessage)) [EvAbort TIMEOUT]
  else match outcome a with
       | Rejects e => mkRun (Throw e) []
       | Resolves r => mkRun (Ok r) []
       end.

(** [throw new Error(v)]: the message is [ToString(v)], and a conversion
    that fails throws in place of the new error. *)
Definition new_Error {A : Type} (v : JsVal) : Exc A :=
  let! t := to_string conversionMessage v in
  Throw (Error t).

(** The statements of the [try] block after [fetch] has resolved. *)
Definition read_response (response : Response) : Exc JsVal :=
  if negb (ok response)
  then Throw (Error ("HTTP error! status: " +:+ N_to_string (status response)))
  else
    match body response with
    | BodyFail e => Throw e
    | BodyJson data =>
        let! errorMessage := get typeErrorMessage data "Error Message" in
        if truthy errorMessage then new_Error errorMessage else
        let! note := get typeErrorMessage data "Note" in
        if truthy note then new_Error note else
        Ok data
    end.

(** The [try] block of [makeRequest]. *)
Definition try_block (endpoint : string) (a : Attempt) : Run JsVal :=
  let fetched := fetch_with_timeout a in
  mkRun (let! response := result fetched in read_response response)
        (EvFetch (request_url endpoint) :: trace fetched).

(** [error.message.includes('network') || error.message.includes('timeout')] *)
Definition is_transient (error : JsError) : bool :=
  includes (message error) "network" || includes (message error) "timeout".

(** [await delay(ms); return this.makeRequest(...)] after the events [tr]. *)
Definition then_retry {A : Type} (tr : list Event) (ms : N) (r : Run A) : Run A :=
  mkRun (result r) (tr ++ EvDelay ms :: trace r).

(** [ApiService.makeRequest(endpoint, retryCount)].  [net k] is the exchange
    that the call with [retryCount = k] gets from the network. *)
Equations? makeRequest (net : nat -> Attempt) (endpoint : string)
    (retryCount : nat) : Run JsVal by wf (RETRY_ATTEMPTS - retryCount) lt :=
makeRequest net endpoint retryCount
  with try_block endpoint (net retryCount) => {
  | mkRun (Ok data) tr => mkRun (Ok data) tr
  | mkRun (Throw error) tr
      with bool_decide (name error = "AbortError") => {
      | true => mkRun (Throw (Error "Request timeout")) tr
      | false with decide (retryCount < RETRY_ATTEMPTS) => {
          | left _ with is_transient error => {
              | true =>
                  then_retry tr (RETRY_DELAY * N.of_nat (retryCount + 1))
                    (makeRequest net endpoint (retryCount + 1))
              | false => mkRun (Throw error) tr }
          | right _ => mkRun (Throw error) tr } } }.
Proof. lia. Qed.

(** The failures after which [makeRequest] calls itself again, as long as
    [retryCount < RETRY_ATTEMPTS]. *)
Definition retryable (error : JsError) : bool :=
  negb (bool_decide (name error = "AbortError")) && is_transient error.

(** What [makeRequest] settles with after the attempt that it does not
    retry. *)
Definition final_result (attempt : Exc JsVal) : Exc JsVal :=
  match attempt with
  | Ok data => Ok data
  | Throw error =>
      if bool_decide (name error = "AbortError")
      then Throw (Error "Request timeout")
      else Throw error
  end.

(** The events of [n] failed attempts that are retried, the first of them
    made with [retryCount = k]: each is a [fetch] followed by the wait
    [RETRY_DELAY * (retryCount + 1)]. *)
Fixpoint retried_attempts (endpoint : string) (k n : nat) : list Event :=
  match n with
  | 0 => []
  | S n' =>
      EvFetch (request_url endpoint)
        :: EvDelay (RETRY_DELAY * N.of_nat (k + 1))
        :: retried_attempts endpoint (k + 1) n'
  end.

(** The body shared by [getTopGainers] and [getTopLosers]: the request, the
    validation, and the [catch] that rethrows [new Error(error.message)]. *)
Definition getMovers (pick : TopGainersResponse -> list JsVal)
    (net : nat -> Attempt) : Run (list JsVal) :=
  let response := makeRequest net TOP_GAINERS_LOSERS 0 in
  let outcome :=
    let! data := result response in
    let! validatedResponse := validateTopGainersResponse data in
    match validatedResponse with
    | None => Throw (Error "Invalid response format")
    | Some r => Ok (pick r)
    end in
  mkRun match outcome with
        | Ok items => Ok items
        | Throw error => Throw (Error (message error))
        end
        (trace response).

Definition getTopGainers : (nat -> Attempt) -> Run (list JsVal) :=
  getMovers top_gainers.

Definition getTopLosers : (nat -> Attempt) -> Run (list JsVal) :=
  getMovers top_losers.

(** The specification's reading of the sentinel fields, for a provider that
    answers every attempt at once with HTTP 200 and the payload [data]: the
    request fails with the embedded message after a single [fetch]. *)
Definition sentinel_fails_without_retry (data : JsVal) : Prop :=
  has_sentinel data = true ->
  let answer := mkAttempt 0 (Resolves (mkHttp true 200 (BodyJson data))) in
  let r := makeRequest (fun _ => answer) TOP_GAINERS_LOSERS 0 in
  (exists msg, embedded_message data = Some msg /\ result r = Throw (Error msg))
  /\ fetches (trace r) = 1.

End Engine.
End Api.

(* ===================================================================== *)
(** * hooks/useStockData.ts and the movers screens *)
(* ===================================================================== *)

Module StockData.
Import Js.

Record UseStockDataState : Type := mkState {
  data : list JsVal;
  loading : bool;
  refreshing : bool;
  error : option string
}.

(** The argument of [useState]. *)
Definition initialState : UseStockDataState :=
  mkState [] true false None.

(** [fetchData], given how [fetchFunctionRef.current()] settles: the error is
    cleared first, then the state is replaced in the [try] or in the [catch]
    branch. *)
Definition clearError (prev : UseStockDataState) : UseStockDataState :=
  mkState (data prev) (loading prev) (refreshing prev) None.

Definition settle (emptyStateMessage : string)
    (fetched : Exc (list JsVal)) (prev : UseStockDataState) : UseStockDataState :=
  match fetched with
  | Ok items =>
      mkState items false false
        (if bool_decide (length items = 0) then Some emptyStateMessage else None)
  | Throw e =>
      mkState [] false false (Some (message e))
  end.

Definition fetchData (emptyStateMessage : string)
    (fetched : Exc (list JsVal)) (prev : UseStockDataState) : UseStockDataState :=
  settle emptyStateMessage fetched (clearError prev).

(** The messages that [useTopGainers] and [useTopLosers] pass. *)
Definition topGainersEmptyMessage : string :=
  "No top gainers available at the moment".
Definition topLosersEmptyMessage : string :=
  "No top losers available at the moment".

(** What [renderContent] of [TopGainerScreen] and [TopLoserScreen] returns. *)
Inductive Content : Type :=
| LoadingState
| ErrorState (error : string)
| EmptyState
| StockGrid (items : list JsVal).

Definition renderContent (st : UseStockDataState) : Content :=
  if loading st then LoadingState else
  match error st with
  | Some msg =>
      (* if (error): the empty string is falsy *)
      if negb (str_eqb msg "") then ErrorState msg
      else if bool_decide (length (data st) = 0) then EmptyState
      else StockGrid (data st)
  | None =>
      if bool_decide (length (data st) = 0) then EmptyState
      else StockGrid (data st)
  end.

End StockData.

(* ===================================================================== *)
(** * screens/StockDetailsScreen.tsx: the overview cache *)
(* ===================================================================== *)

Module StockDetails.
Import Js.

Definition API_BASE_URL : string := "https://www.alphavantage.co/query".

(** The module-level [cache] together with the record of the [fetch] calls
    issued so far (their URLs, oldest first). *)
Record World : Type := mkWorld {
  cache : gmap string JsVal;
  fetched : list string
}.

Section Network.

Variable API_KEY : string.
Variable typeErrorMessage conversionMessage : string.

(** The network: how the [n]-th [fetch] of the session settles, given its
    URL. *)
Variable net : nat -> string -> Api.FetchOutcome.

Definition overview_url (symbol : string) : string :=
  API_BASE_URL +:+ "?function=OVERVIEW&symbol=" +:+ symbol +:+ "&apikey=" +:+ API_KEY.

(** The [try] block of [fetchData]. *)
Definition fetchData_try (settled : Api.FetchOutcome) : Exc JsVal :=
  match settled with
  | Api.Rejects e => Throw e
  | Api.Resolves response =>
      if negb (Api.ok response)
      then Throw (Error ("HTTP error! status: "
                         +:+ Api.N_to_string (Api.status response)))
      else
        match Api.body response with
        | Api.BodyFail e => Throw e
        | Api.BodyJson data =>
            (* data['Error Message'] || data['Note'] *)
            let! errorMessage := get typeErrorMessage data "Error Message" in
            let! signalled := (if truthy errorMessage then Ok errorMessage
                               else get typeErrorMessage data "Note") in
            if truthy signalled then Api.new_Error conversionMessage signalled
            else Ok data
        end
  end.

(** [fetchData(symbol)] *)
Definition fetchData (symbol : string) (w : World) : Exc JsVal * World :=
  let url := overview_url symbol in
  let settled := net (length (fetched w)) url in
  let w' := mkWorld (cache w) (fetched w ++ [url]) in
  match fetchData_try settled with
  | Ok data => (Ok data, w')
  | Throw error =>
      (Throw (Error ("Failed to fetch stock overview: " +:+ message error)), w')
  end.

Definition cacheKey (symbol : string) : string := "overview_" +:+ symbol.

(** [stockApiService.fetchStockOverview(symbol)] *)
Definition fetchStockOverview (symbol : string) (w : World) : Exc JsVal * World :=
  match cache w !! cacheKey symbol with
  | Some hit => (Ok hit, w)
  | None =>
      match fetchData symbol w with
      | (Ok data, w') =>
          (Ok data, mkWorld (<[cacheKey symbol := data]> (cache w')) (fetched w'))
      | (Throw e, w') => (Throw e, w')
      end
  end.

End Network.
End StockDetails.

(* ===================================================================== *)
(** * screens/ExploreScreen.tsx: the hybrid search *)
(* ===================================================================== *)

Module Explore.
Import Js.

(** The [StockItem] of the screen. *)
Record StockItem : Type := mkItem {
  ticker : string;
  price : string
}.

Inductive Source : Set := gainer | loser | search.

(** [HybridSearchResult].  The symbol and the name of a remote match are
    whatever the provider sent; a missing price is [undefined]. *)
Record HybridSearchResult : Type := mkResult {
  symbol : JsVal;
  name : JsVal;
  result_price : option string;
  source : Source
}.

(** The search state of the screen. *)
Record SearchState : Type := mkSearch {
  searchResults : list HybridSearchResult;
  searchLoading : bool
}.

(** What one render of [ExploreScreen] reads from [useState], as far as the
    search uses it: the closures made in a render see these values. *)
Record Render : Type := mkRender {
  topGainers : list StockItem;
  topLosers : list StockItem
}.

(** The first render: the arguments of [useState]. *)
Definition firstRender : Render := mkRender [] [].

(** [useMemo(factory, [])]: the factory runs in the first render, and every
    later render gets the value made then. *)
Definition useMemo_once {A : Type} (factory : Render -> A) (current : Render) : A :=
  factory firstRender.

(** [useCallback(fn, [topGainers, topLosers])]: the function made in the
    render, or the one made in an earlier render with the same two lists. *)
Definition useCallback_lists {A : Type} (fn : Render -> A) (current : Render) : A :=
  fn current.

Definition localMatch (src : Source) (item : StockItem) : HybridSearchResult :=
  mkResult (JStr (ticker item)) (JStr "") (Some (price item)) src.

(** [xs.map(f)] for a callback that may throw. *)
Fixpoint mapM {A B : Type} (f : A -> Exc B) (xs : list A) : Exc (list B) :=
  match xs with
  | [] => Ok []
  | x :: rest =>
      let! y := f x in
      let! ys := mapM f rest in
      Ok (y :: ys)
  end.

(** The equality of [Set.prototype.has] between two values of which one is
    a string of the program: primitives are compared by value, and a decoded
    array or object is a fresh reference, equal to nothing kept. *)
Definition sameValueZero (v w : JsVal) : bool :=
  match v, w with
  | JUndefined, JUndefined => true
  | JNull, JNull => true
  | JBool a, JBool b => bool_decide (a = b)
  | JNum a, JNum b => str_eqb a b
  | JStr a, JStr b => str_eqb a b
  | _, _ => false
  end.

(** A [Set]: its elements in insertion order. *)
Definition Set_add (v : JsVal) (seen : list JsVal) : list JsVal :=
  if existsb (sameValueZero v) seen then seen else seen ++ [v].

Definition Set_has (seen : list JsVal) (v : JsVal) : bool :=
  existsb (sameValueZero v) seen.

(** The value [v] is the symbol of one of the results [locals]. *)
Definition symbol_among (locals : list HybridSearchResult) (v : JsVal) : bool :=
  existsb (sameValueZero v) (List.map symbol locals).

Definition is_nullish (v : JsVal) : bool :=
  match v with JUndefined | JNull => true | _ => false end.

(** The remote matches read off a settled symbol search: one result per
    entry of the array [bestMatches] of the payload, with the entry's
    "1. symbol" and "2. name", tagged [search] and without price; nothing
    when the search failed, when the payload is [null], when [bestMatches]
    is not an array, and when one of its entries is [null] or
    [undefined]. *)
Definition remoteMatches (settled : Exc JsVal) : list HybridSearchResult :=
  match settled with
  | Ok data =>
      match field data "bestMatches" with
      | JArr items =>
          if existsb is_nullish items then []
          else List.map (fun item => mkResult (field item "1. symbol")
                                              (field item "2. name") None search)
                        items
      | _ => []
      end
  | Throw _ => []
  end.

Section Search.

(** [String.prototype.toLowerCase] of the engine. *)
Variable toLowerCase : string -> string.

Variable typeErrorMessage : string.

(** [item.ticker.toLowerCase().includes(lowerQuery)] *)
Definition matches (lowerQuery : string) (item : StockItem) : bool :=
  includes (toLowerCase (ticker item)) lowerQuery.

(** The symbol-search endpoint: how [fetch] followed by [res.json()] settles
    for the given keywords. *)
Variable searchApi : string -> Exc JsVal.

(** The inner [try] of [fetchSearchResults]. *)
Definition apiResults_try (query : string) : Exc (list HybridSearchResult) :=
  let! data := searchApi query in
  let! bestMatches := get typeErrorMessage data "bestMatches" in
  match (if truthy bestMatches then bestMatches else JArr []) with
  | JArr items =>
      mapM (fun item =>
              let! sym := get typeErrorMessage item "1. symbol" in
              let! nm := get typeErrorMessage item "2. name" in
              Ok (mkResult sym nm None search))
           items
  | _ => Throw (mkError "TypeError" typeErrorMessage)
  end.

(** The inner [try] with its [catch]. *)
Definition apiResults (query : string) : list HybridSearchResult :=
  match apiResults_try query with
  | Ok rs => rs
  | Throw _ => []
  end.

(** The list that [fetchSearchResults(query)] passes to [setSearchResults],
    in the function body that closes over the lists of the render [r]. *)
Definition combinedResults (r : Render) (query : string) : list HybridSearchResult :=
  let lowerQuery := toLowerCase query in
  let gainerMatches :=
    List.map (localMatch gainer) (List.filter (matches lowerQuery) (topGainers r)) in
  let loserMatches :=
    List.map (localMatch loser) (List.filter (matches lowerQuery) (topLosers r)) in
  let api := apiResults query in
  let combined := gainerMatches ++ loserMatches in
  let seen := fold_left (fun seen item => Set_add (symbol item) seen) combined [] in
  let filteredApiResults := List.filter (fun item => negb (Set_has seen (symbol item))) api in
  combined ++ filteredApiResults.

(** [fetchSearchResults] of a render: the search state once a call
    [fetchSearchResults(query)] has settled. *)
Definition fetchSearchResults
  : Render -> string -> SearchState -> SearchState :=
  useCallback_lists
    (fun r query st => mkSearch (combinedResults r query) false).

(** The function that a render passes to [debounce]: it calls the
    [fetchSearchResults] of that render. *)
Definition searchCallback (r : Render) (query : string) (st : SearchState)
  : SearchState :=
  if bool_decide (0 < String.length (trim query))
  then fetchSearchResults r (trim query) st
  else mkSearch [] (searchLoading st).

(** What the timer of [debouncedSearch] runs, in any render. *)
Definition debouncedSearch
  : Render -> string -> SearchState -> SearchState :=
  useMemo_once searchCallback.

End Search.
End Explore.

(* ===================================================================== *)
(** * screens/AddToWatchlistModal.tsx *)
(* ===================================================================== *)

Module WatchlistModal.
Import Js.

Record Watchlist : Type := mkWatchlist {
  name : string;
  stocks : list string
}.

(** The component state.  [selected] is a plain object with boolean
    values: the map holds its own properties. *)
Record ModalState : Type := mkModal {
  watchlists : list Watchlist;
  newName : string;
  selected : gmap string bool
}.

(** The properties that a plain object inherits from [Object.prototype];
    each of them has a truthy value (a function, and the prototype itself
    for [__proto__]). *)
Definition objectPrototypeKeys : list string :=
  ["constructor"; "hasOwnProperty"; "isPrototypeOf"; "propertyIsEnumerable";
   "toLocaleString"; "toString"; "valueOf"; "__defineGetter__";
   "__defineSetter__"; "__lookupGetter__"; "__lookupSetter__"; "__proto__"].

(** [sel[k]] as a condition: the own property, else the inherited one. *)
Definition reads_truthy (sel : gmap string bool) (k : string) : bool :=
  match sel !! k with
  | Some b => b
  | None => bool_decide (k ∈ objectPrototypeKeys)
  end.

(** [sel[k] = b]: an own property is made or updated, except that the
    assignment to an inherited [__proto__] runs its setter, which ignores a
    boolean. *)
Definition assign (k : string) (b : bool) (sel : gmap string bool)
  : gmap string bool :=
  if str_eqb k "__proto__" && bool_decide (sel !! k = None) then sel
  else <[k := b]> sel.

(** The item kept under [STORAGE_KEY] ([None] while nothing was written) and
    the state of the open modal. *)
Record Device : Type := mkDevice {
  storage : option (list Watchlist);
  modal : ModalState
}.

(** The persisted collection, as [loadWatchlists] decodes it. *)
Definition persisted (d : Device) : list Watchlist :=
  match storage d with
  | Some lists => lists
  | None => []
  end.

(** [xs.includes(x)] *)
Definition list_includes (xs : list string) (x : string) : bool :=
  existsb (fun s => str_eqb s x) xs.

Section Modal.

(** The [symbol] prop of the modal. *)
Variable symbol : string.

(** [loadWatchlists] *)
Definition loadWatchlists (d : Device) : Device :=
  let lists := persisted d in
  let sel := fold_left
               (fun (sel : gmap string bool) wl =>
                  assign (name wl) (list_includes (stocks wl) symbol) sel)
               lists ∅ in
  mkDevice (storage d) (mkModal lists (newName (modal d)) sel).

(** [saveWatchlists(lists)] *)
Definition saveWatchlists (lists : list Watchlist) (d : Device) : Device :=
  mkDevice (Some lists)
           (mkModal lists (newName (modal d)) (selected (modal d))).

(** [onChangeText={setNewName}] *)
Definition setNewName (text : string) (d : Device) : Device :=
  mkDevice (storage d)
           (mkModal (watchlists (modal d)) text (selected (modal d))).

(** [handleAddWatchlist] *)
Definition handleAddWatchlist (d : Device) : Device :=
  let trimmed := trim (newName (modal d)) in
  if str_eqb trimmed "" then d else
  if existsb (fun wl => str_eqb (name wl) trimmed) (watchlists (modal d)) then d else
  let newList := watchlists (modal d) ++ [mkWatchlist trimmed []] in
  setNewName "" (saveWatchlists newList d).

(** The callback of [watchlists.map] in [handleToggle]. *)
Definition toggleIn (n : string) (wl : Watchlist) : Watchlist :=
  if negb (str_eqb (name wl) n) then wl else
  let exists_ := list_includes (stocks wl) symbol in
  mkWatchlist (name wl)
    (if exists_
     then List.filter (fun s => negb (str_eqb s symbol)) (stocks wl)
     else stocks wl ++ [symbol]).

(** [!sel[name]] *)
Definition flipped (sel : gmap string bool) (n : string) : bool :=
  negb (reads_truthy sel n).

(** [handleToggle(name)]; [{...sel, [name]: v}] has the own properties of
    [sel] and the own property [name]. *)
Definition handleToggle (n : string) (d : Device) : Device :=
  let updated := List.map (toggleIn n) (watchlists (modal d)) in
  let d' := saveWatchlists updated d in
  mkDevice (storage d')
           (mkModal (watchlists (modal d')) (newName (modal d'))
                    (<[n := flipped (selected (modal d')) n]> (selected (modal d')))).

End Modal.

(** What the user can do with the modal of some symbol. *)
Inductive Action : Type :=
| Open (symbol : string)
| TypeName (text : string)
| PressAdd
| PressRow (symbol n : string).

Definition act (a : Action) (d : Device) : Device :=
  match a with
  | Open symbol => loadWatchlists symbol d
  | TypeName text => setNewName text d
  | PressAdd => handleAddWatchlist d
  | PressRow symbol n => handleToggle symbol n d
  end.


(** The device after a sequence of user actions. *)
Definition run (actions : list Action) (d : Device) : Device :=
  fold_left (fun d a => act a d) actions d.

(** [create(n)] of the store: the name is typed, then Add is pressed. *)
Definition create (n : string) (d : Device) : Device :=
  handleAddWatchlist (setNewName n d).

(** The modal shows what is stored. *)
Definition in_sync (d : Device) : Prop := watchlists (modal d) = persisted d.



End WatchlistModal.

(* ===================================================================== *)
(** * utils/performance.ts *)
(* ===================================================================== *)

Module Performance.
Import Js.

(** [PERFORMANCE_CONFIG.DEBOUNCE_DELAY] *)
Definition DEBOUNCE_DELAY : N := 300.

Section Debounce.

Context {A : Type}.
Variable delay : N.

(** A timer set by the closure: its identifier, the time at which it is due,
    and the arguments of the call that set it. *)
Record Timer : Type := mkTimer {
  timer_id : nat;
  fire_at : N;
  timer_args : A
}.

(** The closure made by [debounce(func, delay)] in its environment: the
    variable [timeoutId], the timers of the closure that are still pending
    (oldest first), the identifier that the next [setTimeout] returns, and
    the calls of [func] made so far with their times. *)
Record Debounced : Type := mkDebounced {
  timeoutId : option nat;
  pending : list Timer;
  nextId : nat;
  executed : list (N * A)
}.

(** The state right after [debounce(func, delay)]: [let timeoutId;]. *)
Definition debounce : Debounced := mkDebounced None [] 0 [].

Definition due (t : N) (tm : Timer) : bool := (fire_at tm <=? t)%N.

(** [clearTimeout(id)]: nothing happens for [undefined] and for a timer that
    has run already. *)
Definition clearTimeout (id : option nat) (timers : list Timer) : list Timer :=
  match id with
  | None => timers
  | Some i => List.filter (fun tm => negb (Nat.eqb (timer_id tm) i)) timers
  end.

(** A call of the debounced function when the clock shows [t]:
    [clearTimeout(timeoutId); timeoutId = setTimeout(..., delay)]. *)
Definition call (t : N) (args : A) (st : Debounced) : Debounced :=
  let timers := clearTimeout (timeoutId st) (pending st) in
  mkDebounced (Some (nextId st))
    (timers ++ [mkTimer (nextId st) (t + delay) args])
    (S (nextId st))
    (executed st).

(** The event loop turns to the timers when the clock shows [t]: the
    pending timers that are due run [func(...args)], the oldest first. *)
Definition runTimers (t : N) (st : Debounced) : Debounced :=
  mkDebounced (timeoutId st)
    (List.filter (fun tm => negb (due t tm)) (pending st))
    (nextId st)
    (executed st
       ++ List.map (fun tm => (t, timer_args tm))
            (List.filter (due t) (pending st))).

(** What the JavaScript thread does, one task after the other: a task calls
    the debounced function, or the event loop runs the timers.  A timer
    never runs inside a task, and never before it is due; how long after
    that it runs, and whether before or after a call made at about the same
    time, is up to the event loop. *)
Inductive Task : Type :=
| Call (t : N) (args : A)
| Timers (t : N).

Definition perform (st : Debounced) (task : Task) : Debounced :=
  match task with
  | Call t args => call t args st
  | Timers t => runTimers t st
  end.

(** The calls of [func] made in a sequence of tasks. *)
Definition debounce_run (tasks : list Task) : list (N * A) :=
  executed (fold_left perform tasks debounce).

(** The time at which a timer due at [due_at] runs in the tasks that follow
    the call that set it: the first turn of the event loop at or after
    [due_at], unless the debounced function is called before. *)
Fixpoint runs_at (due_at : N) (rest : list Task) : option N :=
  match rest with
  | [] => None
  | Call _ _ :: _ => None
  | Timers t :: rest' => if (due_at <=? t)%N then Some t else runs_at due_at rest'
  end.

(** The calls that are followed by a quiet period of [delay], with the time
    at which their timer runs. *)
Fixpoint trailing_calls (tasks : list Task) : list (N * A) :=
  match tasks with
  | [] => []
  | Call t args :: rest =>
      match runs_at (t + delay) rest with
      | Some t' => [(t', args)]
      | None => []
      end ++ trailing_calls rest
  | Timers _ :: rest => trailing_calls rest
  end.

End Debounce.

Section Throttle.

Context {A : Type}.
Variable delay : Z.

(** The closure made by [throttle(func, delay)]: the variable [lastCall] and
    the calls of [func] made so far, with the value of [Date.now()]. *)
Record Throttled : Type := mkThrottled {
  lastCall : Z;
  ran : list (Z * A)
}.

(** [let lastCall = 0;] *)
Definition throttle : Throttled := mkThrottled 0 [].

(** A call of the throttled function when [Date.now()] is [now]. *)
Definition throttled (now : Z) (args : A) (st : Throttled) : Throttled :=
  if (delay <=? now - lastCall st)%Z
  then mkThrottled now (ran st ++ [(now, args)])
  else st.

Definition throttle_run (calls : list (Z * A)) : Throttled :=
  fold_left (fun st c => throttled c.1 c.2 st) calls throttle.

End Throttle.

Section Memoize.

Context {A R : Type}.

(** The key of a call: [getKey(...args)], or [JSON.stringify(args)] when no
    [getKey] is given. *)
Variable getKey : A -> string.

(** The memoized function; [func n args] is how its [n]-th invocation
    settles. *)
Variable func : nat -> A -> Exc R.

(** The closure made by [memoize(func, getKey)]: its [cache] and the
    invocations of [func] made so far. *)
Record Memo : Type := mkMemo {
  memo_cache : gmap string R;
  invoked : list A
}.

Definition memoize : Memo := mkMemo ∅ [].

(** A call of the memoized function. *)
Definition memoized (args : A) (st : Memo) : Exc R * Memo :=
  let key := getKey args in
  match memo_cache st !! key with
  | Some hit => (Ok hit, st)
  | None =>
      match func (length (invoked st)) args with
      | Ok result =>
          (Ok result, mkMemo (<[key := result]> (memo_cache st)) (invoked st ++ [args]))
      | Throw e => (Throw e, mkMemo (memo_cache st) (invoked st ++ [args]))
      end
  end.

Definition memo_run (calls : list A) (st : Memo) : Memo :=
  fold_left (fun st args => (memoized args st).2) calls st.

End Memoize.

End Performance.

(* ===================================================================== *)
(** * The grids of the movers and watchlist screens *)
(* ===================================================================== *)

Module Grid.

(** [CONSTANTS.GRID_COLUMNS] *)
Definition GRID_COLUMNS : nat := 2.

Section Grid.

Context {A : Type}.

(** [xs.slice(i, j)] for [0 <= i <= j]. *)
Definition slice (xs : list A) (i j : nat) : list A := take (j - i) (drop i xs).

(** [while (row.length < GRID_COLUMNS) row.push(null)] *)
Equations? pad_row (row : list (option A)) : list (option A)
  by wf (GRID_COLUMNS - length row) lt :=
pad_row row with decide (length row < GRID_COLUMNS) => {
  | left _ => pad_row (row ++ [None])
  | right _ => row }.
Proof. rewrite length_app. simpl. lia. Qed.

(** The [for] loop of [listData], from the index [i] on, [items] being what
    was pushed so far. *)
Equations? listData_from (data : list A) (i : nat) (items : list (option A))
  : list (option A) by wf (length data - i) lt :=
listData_from data i items with decide (i < length data) => {
  | left _ =>
      listData_from data (i + GRID_COLUMNS)
        (items ++ pad_row (List.map Some (slice data i (i + GRID_COLUMNS))))
  | right _ => items }.
Proof. unfold GRID_COLUMNS. lia. Qed.

(** [listData] of [TopGainerScreen], [TopLoserScreen] and
    [WatchlistDetailsScreen]; [null] is [None]. *)
Definition listData (data : list A) : list (option A) := listData_from data 0 [].

(** The pages of [gainersList] and [losersList] in [ExploreScreen]:
    [Array.from({length: Math.ceil(n / 4)})] mapped to
    [items.slice(pageIndex * 4, pageIndex * 4 + 4)]. *)
Definition pages (items : list A) : list (list A) :=
  List.map (fun pageIndex => slice items (pageIndex * 4) (pageIndex * 4 + 4))
    (seq 0 ((length items + 3) / 4)).

End Grid.
End Grid.

(* ===================================================================== *)
(** * screens/WatchlistScreen.tsx and screens/WatchlistDetailsScreen.tsx *)
(* ===================================================================== *)

Module WatchlistScreens.
Import Js WatchlistModal.

(** [load] of [WatchlistScreen]: the names shown after the screen got the
    focus, [shown] being the names shown before.  Nothing is set when the
    storage holds no item. *)
Definition load (stored : option (list Watchlist)) (shown : list string)
  : list string :=
  match stored with
  | Some lists => List.map name lists
  | None => shown
  end.

(** [loadWatchlist] of [WatchlistDetailsScreen], for the route parameter
    [name]: the symbols it sets. *)
Definition loadWatchlist (n : string) (stored : option (list Watchlist))
  : list string :=
  match stored with
  | Some lists =>
      (* lists.find(w => w.name === name); wl?.stocks || [] *)
      match List.find (fun w => str_eqb (name w) n) lists with
      | Some wl => stocks wl
      | None => []
      end
  | None => []
  end.

(** The [StockItem] of [WatchlistDetailsScreen]. *)
Record StockItem : Type := mkStock {
  symbol : string;
  stock_name : JsVal;
  price : JsVal
}.

Section FetchStocks.

Variable typeErrorMessage : string.

(** The overview endpoint: how [fetch] followed by [res.json()] settles for
    the [n]-th request of the loop and its symbol. *)
Variable overviewApi : nat -> string -> Exc JsVal.

(** The inner [try] of the loop body. *)
Definition stock_try (sym : string) (settled : Exc JsVal) : Exc StockItem :=
  let! data := settled in
  let! nm := get typeErrorMessage data "Name" in
  let! average := get typeErrorMessage data "50DayMovingAverage" in
  Ok (mkStock sym (if truthy nm then nm else JStr sym)
                  (if truthy average then average else JStr "0.00")).

(** The loop body with its [catch]. *)
Definition stock_of (sym : string) (settled : Exc JsVal) : StockItem :=
  match stock_try sym settled with
  | Ok item => item
  | Throw _ => mkStock sym (JStr sym) (JStr "0.00")
  end.

(** [for (const symbol of symbols)], [n] requests having been made and
    [results] pushed so far. *)
Fixpoint fetchStocks_loop (n : nat) (symbols : list string)
    (results : list StockItem) : list StockItem :=
  match symbols with
  | [] => results
  | sym :: rest =>
      fetchStocks_loop (S n) rest (results ++ [stock_of sym (overviewApi n sym)])
  end.

(** [fetchStocks]: the list it passes to [setStocks]. *)
Definition fetchStocks (symbols : list string) : list StockItem :=
  fetchStocks_loop 0 symbols [].

(** The effect that follows a change of [symbols]. *)
Definition stocksFor (symbols : list string) : list StockItem :=
  if bool_decide (0 < length symbols) then fetchStocks symbols else [].

End FetchStocks.
End WatchlistScreens.

(* ===================================================================== *)
(** * A session of the watchlist modal *)
(* ===================================================================== *)

Module ModalSession.
Import Js WatchlistModal.

(** What the user does while the modal of one symbol is open: typing in the
    name field, pressing Add, and pressing the row of a listed watchlist
    (the rows are the items of [watchlists]). *)
Inductive Step : Type :=
| TypeText (text : string)
| Add
| PressRowAt (row : nat).

Definition step (symbol : string) (d : Device) (s : Step) : Device :=
  match s with
  | TypeText text => setNewName text d
  | Add => handleAddWatchlist d
  | PressRowAt row =>
      match watchlists (modal d) !! row with
      | Some item => handleToggle symbol (name item) d
      | None => d
      end
  end.

(** The modal becomes visible, then the steps are taken. *)
Definition session (symbol : string) (steps : list Step) (d : Device) : Device :=
  fold_left (step symbol) steps (loadWatchlists symbol d).

(** The check box of a row: [selected[item.name] ? <checked/> : null]. *)
Definition checked (d : Device) (n : string) : bool :=
  reads_truthy (selected (modal d)) n.

(** What a modal session maintains: the modal shows what is stored, names
    are unique, the check box of every watchlist whose name is not the name
    of an inherited property tells whether the symbol is in the watchlist,
    and [selected] has no own property for names that are not listed. *)
Definition consistent (symbol : string) (d : Device) : Prop :=
  in_sync d /\
  NoDup (List.map name (watchlists (modal d))) /\
  (forall wl, wl ∈ watchlists (modal d) -> name wl ∉ objectPrototypeKeys ->
     checked d (name wl) = list_includes (stocks wl) symbol) /\
  (forall n, (forall wl, wl ∈ watchlists (modal d) -> name wl <> n) ->
     selected (modal d) !! n = None).

End ModalSession.

(* ===================================================================== *)
(** * screens/ExploreScreen.tsx: the market data *)
(* ===================================================================== *)

Module Market.
Import Js Api.

(** The market data state of [ExploreScreen]. *)
Record MarketState : Type := mkMarket {
  topGainers : list JsVal;
  topLosers : list JsVal;
  loading : bool;
  error : option string
}.

Definition keyMissingMessage : string :=
  "Please set your Alpha Vantage API key in src/config/environment.ts".

Section FetchData.

Variable typeErrorMessage conversionMessage API_KEY abortMessage : string.

(** [fetchData] of [ExploreScreen]: the state once the call has settled and
    the events of its requests.  [net] is the sequence of exchanges of the
    call; the request for the losers starts where the request for the
    gainers stopped.  ([measurePerformance] hands the result of the wrapped
    function through.) *)
Definition fetchData (net : nat -> Attempt) : MarketState * list Event :=
  if str_eqb API_KEY "" || str_eqb API_KEY "YOUR_API_KEY_HERE"
  then (mkMarket [] [] false (Some keyMissingMessage), [])
  else
    let gainers := getTopGainers typeErrorMessage conversionMessage API_KEY abortMessage net in
    match result gainers with
    | Throw e => (mkMarket [] [] false (Some (message e)), trace gainers)
    | Ok response =>
        let losers :=
          getTopLosers typeErrorMessage conversionMessage API_KEY abortMessage
            (fun k => net (fetches (trace gainers) + k)) in
        match result losers with
        | Throw e =>
            (mkMarket [] [] false (Some (message e)),
             trace gainers ++ trace losers)
        | Ok losersResponse =>
            (mkMarket response losersResponse false None,
             trace gainers ++ trace losers)
        end
    end.

End FetchData.
End Market.

(* ===================================================================== *)
(** * components/StockCard.tsx *)
(* ===================================================================== *)

Module StockCard.



End StockCard.

(* ===================================================================== *)
(** * A session of the overview cache *)
(* ===================================================================== *)

Module OverviewSession.
Import Js StockDetails.

Section Session.

Variable API_KEY typeErrorMessage conversionMessage : string.
Variable net : nat -> string -> Api.FetchOutcome.

(** The world after [fetchStockOverview] was called for the given symbols,
    one call after the other. *)
Definition requests (symbols : list string) (w : World) : World :=
  fold_left (fun w symbol => (fetchStockOverview API_KEY typeErrorMessage conversionMessage net symbol w).2)
    symbols w.

End Session.
End OverviewSession.

(* ===================================================================== *)
(** * Sample inputs *)
(* ===================================================================== *)

Module Samples.
Import Js.

(** A mover whose change amount reads as an infinity. *)
Definition infinite_change : JsVal :=
  JObj [("ticker", JStr "ACME"); ("price", JStr "12.5");
        ("change_amount", JStr "Infinity")].

(** A mover whose price is an object with a property named [toString], and
    a payload that lists it. *)
Definition unreadable_price : JsVal :=
  JObj [("ticker", JStr "A"); ("price", JObj [("toString", JNull)])].

Definition unreadable_payload : JsVal :=
  JObj [("top_gainers", JArr [unreadable_price])].

(** A mover whose price is an object without a text of its own. *)
Definition unpriced : JsVal :=
  JObj [("ticker", JStr "B"); ("price", JObj [("amount", JNum "3")])].

(** A rate-limit note that happens to mention the network. *)
Definition busy_note : JsVal :=
  JObj [("Note", JStr "Our network is busy, please retry later")].

(** A payload with movers and an empty note. *)
Definition empty_note : JsVal :=
  JObj [("Note", JStr ""); ("top_gainers", JArr [])].

(** The note of the provider's rate limiter. *)
Definition rate_limit_text : string :=
  "Thank you for using Alpha Vantage! Our standard API rate limit is 25 requests per day.".

Definition rate_limit_note : JsVal := JObj [("Note", JStr rate_limit_text)].

(** A provider that answers every request with the rate-limit note. *)
Definition rate_limited (_ : nat) : Api.Attempt :=
  Api.mkAttempt 120
    (Api.Resolves (Api.mkHttp true 200 (Api.BodyJson rate_limit_note))).

(** An overview payload. *)
Definition overview_payload : JsVal :=
  JObj [("Symbol", JStr "IBM"); ("Name", JStr "International Business Machines")].

(** A provider that serves the overview once and is unreachable
    afterwards. *)
Definition overview_once (n : nat) (_ : string) : Api.FetchOutcome :=
  match n with
  | 0 => Api.Resolves (Api.mkHttp true 200 (Api.BodyJson overview_payload))
  | _ => Api.Rejects (Js.mkError "TypeError" "Network request failed")
  end.

Definition emptyWorld : StockDetails.World := StockDetails.mkWorld ∅ [].

(** The scenario of the hybrid search: one local gainer, and a symbol search
    that returns it again together with another symbol. *)
Definition local_gainers : list Explore.StockItem :=
  [Explore.mkItem "AAPL" "190.00"].

(** A [toLowerCase] for the samples, which are in the ASCII range: the
    letters A to Z are mapped to a to z. *)
Fixpoint asciiLowerCase (s : string) : string :=
  match s with
  | EmptyString => EmptyString
  | String c s' =>
      let n := N_of_ascii c in
      String (if (65 <=? n)%N && (n <=? 90)%N then ascii_of_N (n + 32) else c)
             (asciiLowerCase s')
  end.

Definition symbol_search (_ : string) : Js.Exc JsVal :=
  Js.Ok (JObj [("bestMatches",
                JArr [JObj [("1. symbol", JStr "AAPL"); ("2. name", JStr "Apple Inc")];
                      JObj [("1. symbol", JStr "AA"); ("2. name", JStr "Alcoa Corp")]])]).

Definition idleSearch : Explore.SearchState := Explore.mkSearch [] false.

(** A symbol search that cannot reach the provider. *)
Definition search_down (_ : string) : Js.Exc JsVal :=
  Js.Throw (Js.mkError "TypeError" "Network request failed").

(** A device that stores one watchlist, shown by the open modal. *)
Definition tech_lists : list WatchlistModal.Watchlist :=
  [WatchlistModal.mkWatchlist "Tech" ["MSFT"]].

Definition tech_device : WatchlistModal.Device :=
  WatchlistModal.mkDevice (Some tech_lists)
    (WatchlistModal.mkModal tech_lists "" ∅).

(** A provider that answers the first attempt with movers. *)
Definition movers_payload : JsVal :=
  JObj [("top_gainers",
         JArr [JObj [("ticker", JStr "AAPL"); ("price", JStr "190.00")];
               JObj [("ticker", JStr ""); ("price", JStr "1.00")]]);
        ("top_losers", JArr [])].

Definition movers_served (_ : nat) : Api.Attempt :=
  Api.mkAttempt 80 (Api.Resolves (Api.mkHttp true 200 (Api.BodyJson movers_payload))).

(** A network on which every exchange fails at once. *)
Definition network_down (_ : nat) : Api.Attempt :=
  Api.mkAttempt 5 (Api.Rejects (Js.mkError "TypeError" "network request failed")).

(** A network that never answers within the timeout. *)
Definition network_stalled (_ : nat) : Api.Attempt :=
  Api.mkAttempt 60000 (Api.Rejects (Js.mkError "TypeError" "network request failed")).

(** A provider that answers HTTP 429 with the rate-limit note. *)
Definition too_many_notes (_ : nat) : Api.Attempt :=
  Api.mkAttempt 40
    (Api.Resolves (Api.mkHttp false 429 (Api.BodyJson rate_limit_note))).

(** A provider that answers HTTP 429 at once. *)
Definition too_many_requests (_ : nat) : Api.Attempt :=
  Api.mkAttempt 40 (Api.Resolves (Api.mkHttp false 429 (Api.BodyJson JNull))).

End Samples.

(* ===================================================================== *)
(** * Facts about the string operations *)
(* ===================================================================== *)

Local Arguments String.append !_ _ / : simpl nomatch.

Section StringFacts.
Import Js.

Lemma str_eqb_true s t : str_eqb s t = true <-> s = t.
Proof. unfold str_eqb. apply bool_decide_eq_true. Qed.

Lemma str_eqb_false s t : str_eqb s t = false <-> s <> t.
Proof. unfold str_eqb. apply bool_decide_eq_false. Qed.

Lemma str_eqb_refl s : str_eqb s s = true.
Proof. by apply str_eqb_true. Qed.

Lemma prefix_spec (t s : string) :
  String.prefix t s = true <-> exists post, s = t +:+ post.
Proof.
  revert s. induction t as [|c t IH]; intros s; simpl.
  - split; [intros _; by exists s | intros _; by destruct s].
  - destruct s as [|d s]; simpl.
    + split; [done | intros [post H]; discriminate H].
    + destruct (Ascii.ascii_dec c d) as [->|Hne].
      * rewrite IH. split; intros [post H]; exists post.
        -- by rewrite H.
        -- by injection H.
      * split; [done | intros [post H]; injection H; congruence].
Qed.

Lemma includes_nil (t : string) : includes "" t = String.prefix t "" || false.
Proof. reflexivity. Qed.

Lemma includes_cons c (s t : string) :
  includes (String c s) t = String.prefix t (String c s) || includes s t.
Proof. reflexivity. Qed.

(** [includes] decides the occurrence of a contiguous substring. *)
Lemma includes_spec (s t : string) :
  includes s t = true <-> exists pre post, s = pre +:+ t +:+ post.
Proof.
  induction s as [|c s IH]; [rewrite includes_nil | rewrite includes_cons].
  - rewrite orb_false_r, prefix_spec. split.
    + intros [post H]. by exists "", post.
    + intros [[|d pre] [post H]]; [by exists post | discriminate H].
  - rewrite orb_true_iff, prefix_spec, IH. split.
    + intros [[post H] | (pre & post & H)].
      * by exists "", post.
      * exists (String c pre), post. simpl. by rewrite H.
    + intros ([|d pre] & post & H).
      * left. by exists post.
      * right. simpl in H. injection H as _ H. by exists pre, post.
Qed.

Lemma has_char_app c (a b : string) :
  has_char c (a +:+ b) = has_char c a || has_char c b.
Proof.
  induction a as [|d a IH]; simpl; [done |].
  by rewrite IH, orb_assoc.
Qed.

(** Every character of an included string occurs in the including one. *)
Lemma includes_has_char (s t : string) c :
  includes s t = true -> has_char c t = true -> has_char c s = true.
Proof.
  rewrite includes_spec. intros (pre & post & ->) Hc.
  rewrite !has_char_app, Hc. by rewrite orb_true_r.
Qed.








End StringFacts.

(* ===================================================================== *)
(** * The response validator *)
(* ===================================================================== *)

Section ValidatorFacts.
Import Js Api.

Variable typeErrorMessage conversionMessage : string.

Local Abbreviation conversionError := (mkError "TypeError" conversionMessage).

Lemma isNaN_parseFloat_spec (v : JsVal) :
  isNaN_parseFloat conversionMessage v
  = if unreadable v then Throw conversionError else Ok (negb (numeric v)).
Proof.
  unfold isNaN_parseFloat, to_string, unreadable, numeric, parseFloat.
  destruct (text v) as [t |]; simpl; [| done]. by rewrite negb_involutive.
Qed.

Lemma unreadable_not_numeric (v : JsVal) : unreadable v = true -> numeric v = false.
Proof. unfold unreadable, numeric, parseFloat. by destruct (text v). Qed.

Lemma unreadable_defined (v : JsVal) : unreadable v = true -> is_undefined v = false.
Proof. by destruct v. Qed.

(** The filter callback throws on the raising entries and computes
    [kept_entry] on the others. *)
Lemma validItem_spec (item : JsVal) :
  validItem typeErrorMessage conversionMessage item
  = if raising_entry item then Throw conversionError else Ok (kept_entry item).
Proof.
  destruct item as [| | b | r | s | items | fields]; try reflexivity.
  - unfold validItem. simpl. by destruct b.
  - unfold validItem. simpl. by destruct (negb (str_eqb r "0" || str_eqb r "NaN")).
  - unfold validItem. simpl. by destruct (negb (str_eqb s "")).
  - unfold validItem, kept_entry, raising_entry, absent_or_numeric.
    cbn [truthy typeof negb orb bool_decide decide_rel get field bind].
    rewrite bool_decide_true by done. cbn [negb].
    destruct (assoc "ticker" fields) as [| | b | r | t | its | fs] eqn:Ht;
      cbn [truthy typeof negb andb bool_decide call_trim bind]; try reflexivity.
    + by destruct b.
    + by destruct (negb (str_eqb r "0" || str_eqb r "NaN")).
    + destruct (str_eqb t "") eqn:Hempty; cbn [negb].
      { apply str_eqb_true in Hempty. subst t. reflexivity. }
      rewrite bool_decide_true by done. cbn [negb].
      destruct (str_eqb (trim t) ""); cbn [negb andb]; [reflexivity |].
      destruct (truthy (assoc "price" fields)); cbn [negb andb]; [| reflexivity].
      rewrite isNaN_parseFloat_spec.
      destruct (unreadable (assoc "price" fields)) eqn:Hprice; cbn [bind orb].
      { reflexivity. }
      destruct (numeric (assoc "price" fields)); cbn [negb andb]; [| reflexivity].
      destruct (is_undefined (assoc "change_amount" fields)) eqn:Hamount;
        cbn [negb orb bind].
      * assert (unreadable (assoc "change_amount" fields) = false) as ->.
        { by destruct (assoc "change_amount" fields). }
        cbn [orb andb].
        destruct (is_undefined (assoc "change_percentage" fields)) eqn:Hpct;
          cbn [negb orb bind].
        -- assert (unreadable (assoc "change_percentage" fields) = false) as ->;
             [by destruct (assoc "change_percentage" fields) | reflexivity].
        -- rewrite isNaN_parseFloat_spec.
           destruct (unreadable (assoc "change_percentage" fields)); cbn [bind];
             [reflexivity |].
           by destruct (numeric (assoc "change_percentage" fields)).
      * rewrite isNaN_parseFloat_spec.
        destruct (unreadable (assoc "change_amount" fields)); cbn [bind orb];
          [reflexivity |].
        destruct (numeric (assoc "change_amount" fields)); cbn [negb andb];
          [| reflexivity].
        destruct (is_undefined (assoc "change_percentage" fields)) eqn:Hpct;
          cbn [negb orb bind].
        -- assert (unreadable (assoc "change_percentage" fields) = false) as ->;
             [by destruct (assoc "change_percentage" fields) | reflexivity].
        -- rewrite isNaN_parseFloat_spec.
           destruct (unreadable (assoc "change_percentage" fields)); cbn [bind];
             [reflexivity |].
           by destruct (numeric (assoc "change_percentage" fields)).
Qed.

Lemma filterM_spec (items : list JsVal) :
  filterM (validItem typeErrorMessage conversionMessage) items
  = if existsb raising_entry items then Throw conversionError
    else Ok (List.filter kept_entry items).
Proof.
  induction items as [|item items IH]; [done |].
  cbn [filterM existsb List.filter]. rewrite validItem_spec.
  destruct (raising_entry item); cbn [bind orb]; [done |].
  rewrite IH. destruct (existsb raising_entry items); cbn [bind]; [done |].
  by destruct (kept_entry item).
Qed.

(** [validateStockData] throws on an array with a raising entry; otherwise
    it yields the kept entries of an array and the empty list for anything
    else. *)
Lemma validateStockData_spec (data : JsVal) :
  validateStockData typeErrorMessage conversionMessage data
  = if raising data then Throw conversionError else Ok (kept_entries data).
Proof.
  destruct data as [| | b | r | s | items | fields]; try reflexivity.
  - unfold validateStockData. simpl. by destruct b.
  - unfold validateStockData. simpl. by rewrite orb_true_r.
  - unfold validateStockData. simpl. by rewrite orb_true_r.
  - unfold validateStockData. simpl. apply filterM_spec.
Qed.

(** What [validateStockData] returns, when it returns, is the list of the
    kept entries. *)
Lemma validateStockData_kept (data : JsVal) (items : list JsVal) :
  validateStockData typeErrorMessage conversionMessage data = Ok items ->
  items = kept_entries data.
Proof.
  rewrite validateStockData_spec. destruct (raising data); [done |]. by intros [= <-].
Qed.

(** A kept entry raises nothing. *)
Lemma kept_entry_not_raising (item : JsVal) :
  kept_entry item = true -> raising_entry item = false.
Proof.
  destruct item as [| | b | r | s | items | fields]; try done.
  unfold kept_entry, raising_entry, absent_or_numeric.
  destruct (match assoc "ticker" fields with JStr t => _ | _ => false end);
    cbn [andb]; [| done].
  destruct (truthy (assoc "price" fields)); cbn [andb]; [| done].
  destruct (numeric (assoc "price" fields)) eqn:Hprice; cbn [andb]; [| done].
  destruct (unreadable (assoc "price" fields)) eqn:Hp.
  { apply unreadable_not_numeric in Hp. congruence. }
  cbn [orb]. intros H. apply andb_true_iff in H as [Ha Hc].
  rewrite Ha. cbn [andb].
  destruct (unreadable (assoc "change_amount" fields)) eqn:Hua.
  { rewrite (unreadable_not_numeric _ Hua), (unreadable_defined _ Hua) in Ha.
    discriminate Ha. }
  destruct (unreadable (assoc "change_percentage" fields)) eqn:Hup; [| done].
  rewrite (unreadable_not_numeric _ Hup), (unreadable_defined _ Hup) in Hc.
  discriminate Hc.
Qed.

(** C6, as stated, at a list holding one entry whose change amount is the
    text "Infinity": the specification's wording removes the entry (it does
    not parse as a finite number), the code returns it. *)
Lemma validateStockData_keeps_infinite_change :
  validateStockData "" "" (JArr [Samples.infinite_change])
  <> Ok (List.filter specified_entry [Samples.infinite_change]).
Proof. vm_compute. discriminate. Qed.

(** C6, amended: for every input that holds no raising entry (an entry with
    a string ticker that is not blank and a truthy price in which the price
    or a change field that [parseFloat] is applied to cannot be converted to
    a string), movers-list validation returns exactly the entries that are
    objects with a string ticker that is not blank after trimming, a truthy
    price at whose start [parseFloat] reads a number, and change_amount and
    change_percentage that are absent or start with a number ([NaN] is
    rejected, an infinity is not); the order is kept, every other entry is
    removed, and an input that is not an array gives the empty list. *)
Theorem validateStockData_filters_kept_entries (data : JsVal) :
  raising data = false ->
  validateStockData typeErrorMessage conversionMessage data
  = Ok (match data with
        | JArr items => List.filter kept_entry items
        | _ => []
        end).
Proof. intros Hdata. rewrite validateStockData_spec, Hdata. by destruct data. Qed.

(** What [validateTopGainersResponse] does with every value. *)
Lemma validateTopGainersResponse_spec (data : JsVal) :
  validateTopGainersResponse typeErrorMessage conversionMessage data
  = (if negb (truthy data) || negb (bool_decide (typeof data = TObject))
     then Ok None
     else match sentinel data with
          | Some _ => Ok None
          | None =>
              if raising (field data "top_gainers")
                 || raising (field data "top_losers")
              then Throw conversionError
              else Ok (Some (mkResponse
                               (kept_entries (field data "top_gainers"))
                               (kept_entries (field data "top_losers"))
                               (if truthy (field data "last_updated_utc")
                                then field data "last_updated_utc"
                                else JUndefined)))
          end).
Proof.
  assert (Hsub : forall v,
            (if truthy v then validateStockData typeErrorMessage conversionMessage v
             else Ok [])
            = if raising v then Throw conversionError else Ok (kept_entries v)).
  { intros v. destruct (truthy v) eqn:Hv; [apply validateStockData_spec |].
    by destruct v. }
  unfold validateTopGainersResponse, sentinel.
  destruct (truthy data) eqn:Htruthy; cbn [negb orb]; [| reflexivity].
  destruct (bool_decide (typeof data = TObject)) eqn:Hobj; cbn [negb];
    [| reflexivity].
  assert (Hget : forall k, get typeErrorMessage data k = Ok (field data k)).
  { intros k. by destruct data. }
  rewrite Hget. cbn [bind].
  destruct (truthy (field data "Error Message")); [reflexivity |].
  rewrite Hget. cbn [bind].
  destruct (truthy (field data "Note")); [reflexivity |].
  rewrite !Hget. cbn [bind]. rewrite !Hsub.
  destruct (raising (field data "top_gainers")); cbn [bind orb]; [reflexivity |].
  by destruct (raising (field data "top_losers")).
Qed.

(** C10, at the point where the code departs from it: response validation
    throws on some decoded payloads.  [validateStockData] throws a
    [TypeError] exactly on an array with a raising entry and returns the kept
    entries of every other value (the empty list for what is not an array);
    [validateTopGainersResponse] gives [null] for a falsy payload, for one
    whose [typeof] is not object and for one with a truthy sentinel field,
    throws the [TypeError] when one of its two movers fields is an array with
    a raising entry, and returns the kept entries of both fields (the empty
    list for a field that is missing or not an array) for every other
    payload.  It throws on the payload whose one gainer has the price
    [{"toString": null}]. *)
Theorem validateTopGainersResponse_raises (data : JsVal) :
  validateStockData typeErrorMessage conversionMessage data
  = (if raising data then Throw conversionError else Ok (kept_entries data)) /\
  validateTopGainersResponse typeErrorMessage conversionMessage data
  = (if negb (truthy data) || negb (bool_decide (typeof data = TObject))
     then Ok None
     else match sentinel data with
          | Some _ => Ok None
          | None =>
              if raising (field data "top_gainers")
                 || raising (field data "top_losers")
              then Throw conversionError
              else Ok (Some (mkResponse
                               (kept_entries (field data "top_gainers"))
                               (kept_entries (field data "top_losers"))
                               (if truthy (field data "last_updated_utc")
                                then field data "last_updated_utc"
                                else JUndefined)))
          end) /\
  (forall v, isArray v = false -> raising v = false /\ kept_entries v = []) /\
  validateTopGainersResponse typeErrorMessage conversionMessage
    Samples.unreadable_payload
  = Throw conversionError.
Proof.
  split; [apply validateStockData_spec |].
  split; [apply validateTopGainersResponse_spec |].
  split; [intros v Hv; by destruct v | reflexivity].
Qed.

End ValidatorFacts.

Lemma validateStockData_filters_kept_entries_witness :
  Api.validateStockData "" ""
    (Js.JArr [Samples.infinite_change; Js.JNull; Samples.unpriced])
  = Js.Ok [Samples.infinite_change].
Proof.
  apply (validateStockData_filters_kept_entries "" ""
           (Js.JArr [Samples.infinite_change; Js.JNull; Samples.unpriced])).
  reflexivity.
Defined.

(* ===================================================================== *)
(** * The request client *)
(* ===================================================================== *)

Section RequestFacts.
Import Js Api.

Variable typeErrorMessage conversionMessage API_KEY abortMessage : string.

Local Abbreviation makeRequest := (Api.makeRequest typeErrorMessage conversionMessage API_KEY abortMessage).
Local Abbreviation try_block := (Api.try_block typeErrorMessage conversionMessage API_KEY abortMessage).
Local Abbreviation request_url := (Api.request_url API_KEY).
Local Abbreviation retried_attempts := (Api.retried_attempts API_KEY).

(** The body of [makeRequest], as the source has it. *)
Lemma makeRequest_unfold net endpoint k :
  makeRequest net endpoint k =
  let attempt := try_block endpoint (net k) in
  match result attempt with
  | Ok data => mkRun (Ok data) (trace attempt)
  | Throw error =>
      if bool_decide (name error = "AbortError")
      then mkRun (Throw (Error "Request timeout")) (trace attempt)
      else if bool_decide (k < RETRY_ATTEMPTS) && is_transient error
      then then_retry (trace attempt) (RETRY_DELAY * N.of_nat (k + 1))
             (makeRequest net endpoint (k + 1))
      else mkRun (Throw error) (trace attempt)
  end.
Proof.
  cbv zeta. remember (makeRequest net endpoint (k + 1)) as retry eqn:Hretry.
  simp makeRequest.
  destruct (try_block endpoint (net k)) as [[data | error] tr]; simpl.
  - reflexivity.
  - destruct (bool_decide (name error = "AbortError")); simpl; [reflexivity |].
    destruct (decide (k < RETRY_ATTEMPTS)) as [Hlt | Hge]; simpl.
    + rewrite bool_decide_true by done. simpl.
      destruct (is_transient error); simpl; [| reflexivity].
      by rewrite Hretry.
    + by rewrite bool_decide_false by done.
Qed.

Lemma try_block_trace endpoint a :
  trace (try_block endpoint a)
  = EvFetch (request_url endpoint) :: trace (fetch_with_timeout abortMessage a).
Proof. reflexivity. Qed.

Lemma try_block_fetches endpoint a : fetches (trace (try_block endpoint a)) = 1.
Proof.
  rewrite try_block_trace. unfold fetch_with_timeout.
  destruct (TIMEOUT <=? latency a)%N; [reflexivity |].
  by destruct (outcome a).
Qed.

Lemma try_block_delays endpoint a : delays (trace (try_block endpoint a)) = [].
Proof.
  rewrite try_block_trace. unfold fetch_with_timeout.
  destruct (TIMEOUT <=? latency a)%N; [reflexivity |].
  by destruct (outcome a).
Qed.

(** An attempt that the timer aborts fails with an [AbortError]. *)
Lemma try_block_aborted endpoint a :
  (TIMEOUT <= latency a)%N ->
  try_block endpoint a
  = mkRun (Throw (mkError "AbortError" abortMessage))
          [EvFetch (request_url endpoint); EvAbort TIMEOUT].
Proof.
  intros Hlate. unfold Api.try_block, fetch_with_timeout.
  apply N.leb_le in Hlate. by rewrite Hlate.
Qed.

(** An attempt that settles in time issues its [fetch] and nothing else. *)
Lemma try_block_in_time endpoint a :
  (latency a < TIMEOUT)%N ->
  try_block endpoint a
  = mkRun match outcome a with
          | Rejects e => Throw e
          | Resolves r => read_response typeErrorMessage conversionMessage r
          end
          [EvFetch (request_url endpoint)].
Proof.
  intros Hlate. unfold Api.try_block, fetch_with_timeout.
  apply N.leb_gt in Hlate. rewrite Hlate. by destruct (outcome a).
Qed.

Lemma try_block_trace_not_aborted endpoint a e :
  result (try_block endpoint a) = Throw e ->
  bool_decide (name e = "AbortError") = false ->
  trace (try_block endpoint a) = [EvFetch (request_url endpoint)].
Proof.
  destruct (N.le_gt_cases TIMEOUT (latency a)) as [Hlate | Hlate].
  - rewrite try_block_aborted by done. simpl. intros [= <-] Habort.
    by vm_compute in Habort.
  - by rewrite try_block_in_time by done.
Qed.

#[local] Opaque Api.try_block.

Lemma fetches_app tr1 tr2 : fetches (tr1 ++ tr2) = fetches tr1 + fetches tr2.
Proof. unfold fetches. by rewrite List.filter_app, length_app. Qed.

Lemma delays_app tr1 tr2 : delays (tr1 ++ tr2) = delays tr1 ++ delays tr2.
Proof. unfold delays. apply omap_app. Qed.

Lemma retried_attempts_fetches endpoint k n :
  fetches (retried_attempts endpoint k n) = n.
Proof.
  revert k. induction n as [|n IH]; intros k; [reflexivity |].
  simpl. unfold fetches in *. simpl. by rewrite IH.
Qed.

Lemma retried_attempts_delays endpoint k n :
  delays (retried_attempts endpoint k n)
  = List.map (fun attempt => (RETRY_DELAY * N.of_nat attempt)%N) (seq (k + 1) n).
Proof.
  revert k. induction n as [|n IH]; intros k; [reflexivity |].
  simpl. unfold delays in *. simpl. rewrite IH.
  by replace (k + 1 + 1) with (S (k + 1)) by lia.
Qed.

(** The shape of every run of [makeRequest]: some attempts that fail with a
    retryable error and are each followed by the wait, then one last attempt
    whose outcome settles the call. *)
Lemma makeRequest_runs net endpoint k :
  exists n,
    (n = 0 \/ k + n <= RETRY_ATTEMPTS) /\
    trace (makeRequest net endpoint k)
    = retried_attempts endpoint k n ++ trace (try_block endpoint (net (k + n))) /\
    result (makeRequest net endpoint k)
    = final_result (result (try_block endpoint (net (k + n)))) /\
    (forall j, j < n ->
       exists e, result (try_block endpoint (net (k + j))) = Throw e
                 /\ retryable e = true) /\
    (forall e, result (try_block endpoint (net (k + n))) = Throw e ->
       retryable e = true -> RETRY_ATTEMPTS <= k + n).
Proof.
  remember (RETRY_ATTEMPTS - k) as budget eqn:Hbudget.
  revert k Hbudget. induction budget as [|budget IH]; intros k Hbudget.
  - exists 0. rewrite Nat.add_0_r, makeRequest_unfold. cbv zeta.
    rewrite (bool_decide_false (k < RETRY_ATTEMPTS)) by lia. simpl.
    split; [by left |]. split; [| split; [| split]].
    + destruct (result (try_block endpoint (net k))) as [data | e]; [done |].
      by destruct (bool_decide (name e = "AbortError")).
    + unfold final_result.
      destruct (result (try_block endpoint (net k))) as [data | e]; [done |].
      by destruct (bool_decide (name e = "AbortError")).
    + intros j Hj. lia.
    + intros. lia.
  - rewrite makeRequest_unfold. cbv zeta.
    rewrite (bool_decide_true (k < RETRY_ATTEMPTS)) by lia. simpl.
    destruct (result (try_block endpoint (net k))) as [data | e] eqn:Hattempt.
    { exists 0. rewrite Nat.add_0_r, Hattempt. simpl.
      split; [by left |]. repeat split; [intros j Hj; lia | intros e [=]]. }
    destruct (bool_decide (name e = "AbortError")) eqn:Habort.
    { exists 0. rewrite Nat.add_0_r, Hattempt. simpl. rewrite Habort.
      split; [by left |]. repeat split; [intros j Hj; lia |].
      intros e' [= <-]. unfold retryable. by rewrite Habort. }
    destruct (is_transient e) eqn:Htransient.
    2:{ exists 0. rewrite Nat.add_0_r, Hattempt. simpl. rewrite Habort.
        split; [by left |]. repeat split; [intros j Hj; lia |].
        intros e' [= <-]. unfold retryable. by rewrite Htransient, andb_false_r. }
    destruct (IH (k + 1)) as (n & Hn & Htrace & Hresult & Hretried & Hlast); [lia |].
    exists (S n). replace (k + S n) with (k + 1 + n) by lia.
    split; [right; lia |]. split; [| split; [| split]].
    + unfold then_retry. simpl.
      by rewrite Htrace, (try_block_trace_not_aborted _ _ e).
    + exact Hresult.
    + intros [|j] Hj.
      * rewrite Nat.add_0_r. exists e. split; [done |].
        unfold retryable. by rewrite Habort, Htransient.
      * replace (k + S j) with (k + 1 + j) by lia. apply Hretried. lia.
    + exact Hlast.
Qed.

Lemma digits_of_uint c (d : Decimal.uint) :
  has_char c (NilEmpty.string_of_uint d) = true -> is_digit c = true.
Proof.
  induction d as [| d IH | d IH | d IH | d IH | d IH | d IH | d IH | d IH
                  | d IH | d IH]; simpl; [discriminate | ..];
    rewrite orb_true_iff, bool_decide_eq_true; (intros [<- | H]; [reflexivity | by apply IH]).
Qed.

(** The decimal form of a status code consists of digits. *)
Lemma N_to_string_digits c (n : N) :
  has_char c (N_to_string n) = true -> is_digit c = true.
Proof.
  unfold N_to_string, NilZero.string_of_uint.
  destruct (N.to_uint n) eqn:E; try (rewrite <- E; apply digits_of_uint).
  simpl. rewrite orb_false_r, bool_decide_eq_true. by intros <-.
Qed.

(** The error thrown for a non-2xx status is never classified as transient:
    its message has no [w] and no [m] in it. *)
Lemma http_error_not_transient (status : N) :
  is_transient (Error ("HTTP error! status: " +:+ N_to_string status)) = false.
Proof.
  unfold is_transient.
  change (message (Error ?m)) with m. apply orb_false_intro.
  - destruct (includes _ "network") eqn:Hinc; [| reflexivity].
    apply (includes_has_char _ _ "w"%char) in Hinc; [| reflexivity].
    rewrite has_char_app in Hinc. apply orb_true_iff in Hinc as [H | H].
    + by vm_compute in H.
    + by apply N_to_string_digits in H.
  - destruct (includes _ "timeout") eqn:Hinc; [| reflexivity].
    apply (includes_has_char _ _ "m"%char) in Hinc; [| reflexivity].
    rewrite has_char_app in Hinc. apply orb_true_iff in Hinc as [H | H].
    + by vm_compute in H.
    + by apply N_to_string_digits in H.
Qed.

(** A run that ends with an error which is not retryable, at any retry
    count: the error propagates and nothing follows the attempt. *)
Lemma makeRequest_propagates net endpoint k e :
  try_block endpoint (net k) = mkRun (Throw e) [EvFetch (request_url endpoint)] ->
  bool_decide (name e = "AbortError") = false ->
  is_transient e = false ->
  makeRequest net endpoint k = mkRun (Throw e) [EvFetch (request_url endpoint)].
Proof.
  intros Htry Habort Htransient. rewrite makeRequest_unfold. cbv zeta.
  rewrite Htry. simpl. by rewrite Habort, Htransient, andb_false_r.
Qed.

(** C3, at the point where the code departs from it: every attempt runs
    against the fixed timer of 10,000 ms, and an attempt that has not settled
    by then is aborted and makes the request fail with the error "Request
    timeout"; but that failure ends the request at once, whatever the retry
    count, with no wait and no further [fetch], although its message would
    pass the test for transient errors. *)
Theorem makeRequest_timeout_is_final net endpoint k :
  (TIMEOUT <= latency (net k))%N ->
  TIMEOUT = 10000%N /\
  makeRequest net endpoint k
  = mkRun (Throw (Error "Request timeout"))
          [EvFetch (request_url endpoint); EvAbort TIMEOUT] /\
  is_transient (Error "Request timeout") = true.
Proof.
  intros Hlate. split; [reflexivity |]. split; [| reflexivity].
  rewrite makeRequest_unfold. cbv zeta.
  by rewrite try_block_aborted by done.
Qed.

(** C4: a request makes at most 3 retries; the attempt-th retry follows a
    wait of attempt * 1000 ms and a failed attempt whose message contains
    "network" or "timeout"; such a failure (other than the client's own
    abort) is retried as long as fewer than 3 retries were made; and a
    response with a non-2xx status makes the request fail with the error
    "HTTP error! status: <code>" at that very attempt, without a retry. *)
Theorem makeRequest_retry_policy net endpoint :
  let run := makeRequest net endpoint 0 in
  exists retries,
    retries <= 3 /\
    fetches (trace run) = retries + 1 /\
    trace run
    = retried_attempts endpoint 0 retries ++ trace (try_block endpoint (net retries)) /\
    delays (trace run)
    = List.map (fun attempt => (1000 * N.of_nat attempt)%N) (seq 1 retries) /\
    (forall j, j < retries ->
       exists e, result (try_block endpoint (net j)) = Throw e
                 /\ is_transient e = true) /\
    (forall e, result (try_block endpoint (net retries)) = Throw e ->
       retryable e = true -> retries = 3) /\
    (forall j r, j <= retries ->
       (latency (net j) < TIMEOUT)%N -> outcome (net j) = Resolves r ->
       ok r = false ->
       j = retries /\
       result run
       = Throw (Error ("HTTP error! status: " +:+ N_to_string (status r)))).
Proof.
  cbv zeta.
  destruct (makeRequest_runs net endpoint 0)
    as (n & Hn & Htrace & Hresult & Hretried & Hlast).
  simpl in Htrace, Hresult, Hretried, Hlast.
  exists n. split; [unfold RETRY_ATTEMPTS in Hn; lia |].
  split; [| split; [exact Htrace | split; [| split; [| split]]]].
  - by rewrite Htrace, fetches_app, retried_attempts_fetches, try_block_fetches.
  - by rewrite Htrace, delays_app, retried_attempts_delays, try_block_delays,
      app_nil_r.
  - intros j Hj. destruct (Hretried j Hj) as (e & He & Hretry).
    exists e. split; [done |]. unfold retryable in Hretry.
    by apply andb_true_iff in Hretry as [_ ?].
  - intros e He Hretry. specialize (Hlast e He Hretry).
    unfold RETRY_ATTEMPTS in *. lia.
  - intros j r Hj Hlate Hout Hok.
    assert (result (try_block endpoint (net j))
            = Throw (Error ("HTTP error! status: " +:+ N_to_string (status r))))
      as Hfail.
    { rewrite try_block_in_time by done. rewrite Hout. simpl.
      unfold read_response. by rewrite Hok. }
    assert (j = n) as ->.
    { destruct (decide (j = n)) as [| Hne]; [done |].
      destruct (Hretried j) as (e & He & Hretry); [lia |].
      unfold retryable in Hretry. apply andb_true_iff in Hretry as [_ Hretry].
      assert (is_transient e = false) as Hfinal; [| congruence].
      rewrite Hfail in He. injection He as <-.
      exact (http_error_not_transient (status r)). }
    split; [done |]. by rewrite Hresult, Hfail.
Qed.

(** A payload that signals an error is rejected by the response reader with
    the signalled text, or with the error of its conversion. *)
Lemma read_response_sentinel r data e :
  ok r = true -> body r = BodyJson data ->
  sentinel_error conversionMessage data = Some e ->
  read_response typeErrorMessage conversionMessage r = Throw e.
Proof.
  intros Hok Hbody He. unfold read_response. rewrite Hok, Hbody. simpl.
  unfold sentinel_error, sentinel_message, sentinel in He.
  destruct data as [| | b | n | t | items | fields]; try discriminate He.
  simpl in *. unfold new_Error, to_string.
  destruct (truthy (assoc "Error Message" fields)).
  { simpl in He. destruct (text (assoc "Error Message" fields)); simpl; congruence. }
  destruct (truthy (assoc "Note" fields)); [| discriminate He].
  simpl in He. destruct (text (assoc "Note" fields)); simpl; congruence.
Qed.

Lemma validateTopGainersResponse_sentinel data e :
  sentinel_error conversionMessage data = Some e ->
  validateTopGainersResponse typeErrorMessage conversionMessage data = Ok None.
Proof.
  intros He. unfold sentinel_error, sentinel_message, sentinel in He.
  destruct data as [| | b | n | t | items | fields]; try discriminate He.
  unfold validateTopGainersResponse. simpl in *.
  destruct (truthy (assoc "Error Message" fields)); [reflexivity |].
  destruct (truthy (assoc "Note" fields)); [reflexivity | discriminate He].
Qed.

Lemma sentinel_attempt_fails (net : nat -> Attempt) endpoint k r data e :
  (latency (net k) < TIMEOUT)%N -> outcome (net k) = Resolves r ->
  ok r = true -> body r = BodyJson data ->
  sentinel_error conversionMessage data = Some e ->
  try_block endpoint (net k)
  = mkRun (Throw e) [EvFetch (request_url endpoint)].
Proof.
  intros Hlate Hout Hok Hbody He.
  rewrite try_block_in_time by done. rewrite Hout.
  by rewrite (read_response_sentinel r data e).
Qed.

(** The error of a sentinel is not an abort. *)
Lemma sentinel_error_name data e :
  sentinel_error conversionMessage data = Some e ->
  bool_decide (name e = "AbortError") = false.
Proof.
  unfold sentinel_error.
  destruct (sentinel_message data) as [[msg |] |]; intros [= <-]; reflexivity.
Qed.

(** C7, amended: whenever a response with an ok status carries a payload
    with a truthy 'Error Message' or, failing that, a truthy 'Note', the
    payload is treated as invalid: the attempt fails with the text of that
    field as the message of its error (a string is its own text), and the
    response validator rejects such a payload as well.  (A field that cannot
    be converted to a string makes the attempt fail with the [TypeError] of
    the conversion: [e] is the one or the other.)  When
    the message of that error contains neither "network" nor "timeout", the
    failure propagates without a retry, and [getTopGainers] and
    [getTopLosers] fail with that message after a single [fetch].  Under a
    status that is not ok the payload is not read: the attempt and the
    request fail with "HTTP error! status: <code>" after a single
    [fetch]. *)
Theorem sentinel_payload_fails (net : nat -> Attempt) endpoint k r data e :
  (latency (net k) < TIMEOUT)%N -> outcome (net k) = Resolves r ->
  body r = BodyJson data -> sentinel_error conversionMessage data = Some e ->
  (forall s, sentinel data = Some (JStr s) -> e = Error s) /\
  validateTopGainersResponse typeErrorMessage conversionMessage data = Ok None /\
  (ok r = true ->
   result (try_block endpoint (net k)) = Throw e /\
   (is_transient e = false ->
    makeRequest net endpoint k
    = mkRun (Throw e) [EvFetch (request_url endpoint)] /\
    (k = 0 ->
     getTopGainers typeErrorMessage conversionMessage API_KEY abortMessage net
     = mkRun (Throw (Error (message e)))
             [EvFetch (request_url TOP_GAINERS_LOSERS)] /\
     getTopLosers typeErrorMessage conversionMessage API_KEY abortMessage net
     = mkRun (Throw (Error (message e)))
             [EvFetch (request_url TOP_GAINERS_LOSERS)]))) /\
  (ok r = false ->
   makeRequest net endpoint k
   = mkRun (Throw (Error ("HTTP error! status: " +:+ N_to_string (status r))))
           [EvFetch (request_url endpoint)]).
Proof.
  intros Hlate Hout Hbody He.
  split.
  { intros s Hs. unfold sentinel_error, sentinel_message in He.
    rewrite Hs in He. simpl in He. congruence. }
  split; [by apply (validateTopGainersResponse_sentinel data e) |].
  split.
  - intros Hok. split.
    { by rewrite (sentinel_attempt_fails net endpoint k r data e). }
    intros Hfinal. split.
    { apply makeRequest_propagates;
        [| by apply (sentinel_error_name data) | done].
      by apply (sentinel_attempt_fails net endpoint k r data e). }
    intros ->.
    assert (makeRequest net TOP_GAINERS_LOSERS 0
            = mkRun (Throw e) [EvFetch (request_url TOP_GAINERS_LOSERS)])
      as Hrun.
    { apply makeRequest_propagates;
        [| by apply (sentinel_error_name data) | done].
      by apply (sentinel_attempt_fails net _ 0 r data e). }
    unfold getTopGainers, getTopLosers, getMovers. cbv zeta.
    by rewrite Hrun.
  - intros Hok. apply makeRequest_propagates.
    + rewrite try_block_in_time by done. rewrite Hout.
      unfold read_response. by rewrite Hok.
    + reflexivity.
    + exact (http_error_not_transient (status r)).
Qed.

End RequestFacts.

Lemma makeRequest_timeout_is_final_witness :
  Api.fetches (Api.trace (Api.makeRequest "" "" "demo" "" Samples.network_stalled Api.TOP_GAINERS_LOSERS 0)) = 1
  /\ Api.result (Api.makeRequest "" "" "demo" "" Samples.network_stalled Api.TOP_GAINERS_LOSERS 0)
     = Js.Throw (Js.Error "Request timeout").
Proof.
  destruct (makeRequest_timeout_is_final "" "" "demo" "" Samples.network_stalled
              Api.TOP_GAINERS_LOSERS 0) as (_ & Hrun & _).
  - vm_compute. discriminate.
  - rewrite Hrun. split; reflexivity.
Defined.

Lemma makeRequest_retry_policy_witness :
  Api.result (Api.makeRequest "" "" "demo" "" Samples.too_many_requests
                Api.TOP_GAINERS_LOSERS 0)
  = Js.Throw (Js.Error "HTTP error! status: 429")
  /\ Api.delays (Api.trace (Api.makeRequest "" "" "demo" "" Samples.network_down
                              Api.TOP_GAINERS_LOSERS 0))
     = [1000; 2000; 3000]%N.
Proof.
  split.
  - destruct (makeRequest_retry_policy "" "" "demo" "" Samples.too_many_requests
                Api.TOP_GAINERS_LOSERS)
      as (retries & _ & _ & _ & _ & _ & _ & Hhttp).
    destruct (Hhttp 0 (Api.mkHttp false 429 (Api.BodyJson Js.JNull)))
      as [_ Hrun].
    + lia.
    + reflexivity.
    + reflexivity.
    + reflexivity.
    + exact Hrun.
  - destruct (makeRequest_retry_policy "" "" "demo" "" Samples.network_down
                Api.TOP_GAINERS_LOSERS)
      as (retries & _ & _ & _ & Hdelays & _ & Hmax & _).
    assert (retries = 3) as Hretries.
    { apply (Hmax (Js.mkError "TypeError" "network request failed"));
        vm_compute; reflexivity. }
    rewrite Hdelays, Hretries. reflexivity.
Defined.

(** C7, as stated, at two payloads answered with HTTP 200: a note that
    mentions the network makes the client retry three times, and a payload
    whose note is the empty string is returned as valid. *)
Lemma sentinel_claim_fails :
  ~ Api.sentinel_fails_without_retry "" "" "demo" "" Samples.busy_note
  /\ ~ Api.sentinel_fails_without_retry "" "" "demo" "" Samples.empty_note.
Proof.
  split; intros Hclaim; specialize (Hclaim eq_refl); vm_compute in Hclaim;
    destruct Hclaim as [(msg & Hmsg & Hresult) Hfetches]; discriminate.
Qed.

Lemma sentinel_payload_fails_witness :
  Api.getTopGainers "" "" "demo" "" Samples.rate_limited
  = Api.mkRun (Js.Throw (Js.Error Samples.rate_limit_text))
      [Api.EvFetch (Api.request_url "demo" Api.TOP_GAINERS_LOSERS)]
  /\ Api.makeRequest "" "" "demo" "" Samples.too_many_notes Api.TOP_GAINERS_LOSERS 0
      = Api.mkRun (Js.Throw (Js.Error "HTTP error! status: 429"))
          [Api.EvFetch (Api.request_url "demo" Api.TOP_GAINERS_LOSERS)].
Proof.
  split.
  - destruct (sentinel_payload_fails "" "" "demo" "" Samples.rate_limited
                Api.TOP_GAINERS_LOSERS 0
                (Api.mkHttp true 200 (Api.BodyJson Samples.rate_limit_note))
                Samples.rate_limit_note (Js.Error Samples.rate_limit_text))
      as (_ & _ & Hok & _).
    + vm_compute. reflexivity.
    + reflexivity.
    + reflexivity.
    + reflexivity.
    + destruct (Hok eq_refl) as [_ Hfinal].
      destruct Hfinal as [_ Hmovers]; [vm_compute; reflexivity |].
      destruct (Hmovers eq_refl) as [Hgainers _]. exact Hgainers.
  - destruct (sentinel_payload_fails "" "" "demo" "" Samples.too_many_notes
                Api.TOP_GAINERS_LOSERS 0
                (Api.mkHttp false 429 (Api.BodyJson Samples.rate_limit_note))
                Samples.rate_limit_note (Js.Error Samples.rate_limit_text))
      as (_ & _ & _ & Hstatus).
    + vm_compute. reflexivity.
    + reflexivity.
    + reflexivity.
    + reflexivity.
    + exact (Hstatus eq_refl).
Defined.

(* ===================================================================== *)
(** * The movers screens *)
(* ===================================================================== *)

Section ScreenFacts.
Import Js StockData.

(** After a fetch, [EmptyState] is rendered only when the text stored in
    [error] is the empty string. *)
Lemma EmptyState_after_fetch emptyStateMessage fetched st :
  renderContent (fetchData emptyStateMessage fetched st) = EmptyState ->
  (fetched = Ok [] /\ emptyStateMessage = "")
  \/ (exists e, fetched = Throw e /\ message e = "").
Proof.
  unfold fetchData, settle, renderContent.
  destruct fetched as [items | e]; simpl.
  - destruct items as [|item items]; simpl; [| discriminate].
    destruct (str_eqb emptyStateMessage "") eqn:Hempty; simpl; [| discriminate].
    apply str_eqb_true in Hempty. intros _. by left.
  - destruct (str_eqb (message e) "") eqn:Hempty; simpl; [| discriminate].
    apply str_eqb_true in Hempty. intros _. right. by exists e.
Qed.

(** C5, at the point where the code departs from it: when a movers fetch
    succeeds with zero items, the hook stores its empty-state message in
    [error], and [renderContent], which tests [error] before the length of
    the data, renders the error state with that message, not the empty
    state; so the error state does not arise only from failed fetches. *)
Theorem empty_success_renders_error_state (st : UseStockDataState) :
  renderContent (fetchData topLosersEmptyMessage (Ok []) st)
  = ErrorState "No top losers available at the moment"
  /\ renderContent (fetchData topGainersEmptyMessage (Ok []) st)
     = ErrorState "No top gainers available at the moment"
  /\ forall e, message e <> "" ->
       renderContent (fetchData topLosersEmptyMessage (Throw e) st)
       = ErrorState (message e).
Proof.
  split; [reflexivity |]. split; [reflexivity |].
  intros e He. unfold fetchData, settle, renderContent. simpl.
  apply str_eqb_false in He. by rewrite He.
Qed.

End ScreenFacts.

Lemma empty_success_renders_error_state_witness :
  StockData.renderContent
    (StockData.fetchData StockData.topLosersEmptyMessage
       (Js.Throw (Js.Error "Request timeout")) StockData.initialState)
  = StockData.ErrorState "Request timeout".
Proof.
  destruct (empty_success_renders_error_state StockData.initialState)
    as (_ & _ & Hfailed).
  apply (Hfailed (Js.Error "Request timeout")). discriminate.
Defined.

(* ===================================================================== *)
(** * The overview cache *)
(* ===================================================================== *)

Section CacheFacts.
Import Js StockDetails.

Variable API_KEY typeErrorMessage conversionMessage : string.
Variable net : nat -> string -> Api.FetchOutcome.

Local Abbreviation fetchStockOverview :=
  (StockDetails.fetchStockOverview API_KEY typeErrorMessage conversionMessage net).
Local Abbreviation overview_url := (StockDetails.overview_url API_KEY).

(** C2: take two stock-overview fetches for a symbol, one after the other,
    the symbol not being cached yet.  If the first succeeds, the network
    fetch is invoked exactly once over the two calls, the payload is stored
    under the symbol's cache key, and both calls return it.  If the first
    fails, nothing is stored under the key and the second call invokes the
    network fetch again.  (A symbol that is cached already is served from the
    cache, with no network fetch.) *)
Theorem fetchStockOverview_caches (symbol : string) (w : World) :
  (cache w !! cacheKey symbol = None ->
   let first := fetchStockOverview symbol w in
   let second := fetchStockOverview symbol first.2 in
   match first.1 with
   | Ok payload =>
       second.1 = Ok payload /\
       cache first.2 !! cacheKey symbol = Some payload /\
       fetched second.2 = fetched w ++ [overview_url symbol]
   | Throw _ =>
       cache first.2 !! cacheKey symbol = None /\
       fetched first.2 = fetched w ++ [overview_url symbol] /\
       fetched second.2
       = fetched w ++ [overview_url symbol; overview_url symbol]
   end) /\
  (forall hit, cache w !! cacheKey symbol = Some hit ->
     fetchStockOverview symbol w = (Ok hit, w)).
Proof.
  split.
  - intros Hmiss. cbv zeta.
    set (settled := fetchData_try typeErrorMessage conversionMessage
                      (net (length (fetched w)) (overview_url symbol))).
    assert (fetchStockOverview symbol w
            = match settled with
              | Ok data =>
                  (Ok data,
                   mkWorld (<[cacheKey symbol := data]> (cache w))
                           (fetched w ++ [overview_url symbol]))
              | Throw e =>
                  (Throw (Error ("Failed to fetch stock overview: " +:+ message e)),
                   mkWorld (cache w) (fetched w ++ [overview_url symbol]))
              end) as Hfirst.
    { unfold StockDetails.fetchStockOverview, fetchData. rewrite Hmiss.
      fold settled. by destruct settled. }
    rewrite Hfirst. destruct settled as [payload | e]; simpl.
    + unfold StockDetails.fetchStockOverview. simpl.
      by rewrite lookup_insert_eq.
    + split; [done |]. split; [done |].
      unfold StockDetails.fetchStockOverview, fetchData. simpl. rewrite Hmiss.
      destruct (fetchData_try _ _); simpl; by rewrite <- app_assoc.
  - intros hit Hhit. unfold StockDetails.fetchStockOverview. by rewrite Hhit.
Qed.

End CacheFacts.

Lemma fetchStockOverview_caches_witness :
  let first := StockDetails.fetchStockOverview "demo" "" "" Samples.overview_once
                 "IBM" Samples.emptyWorld in
  let second := StockDetails.fetchStockOverview "demo" "" "" Samples.overview_once
                  "IBM" first.2 in
  second.1 = Js.Ok Samples.overview_payload
  /\ length (StockDetails.fetched second.2) = 1.
Proof.
  destruct (fetchStockOverview_caches "demo" "" "" Samples.overview_once "IBM"
              Samples.emptyWorld) as [Hmiss _].
  specialize (Hmiss eq_refl). cbv zeta in *.
  change (StockDetails.fetchStockOverview "demo" "" "" Samples.overview_once "IBM"
            Samples.emptyWorld).1
    with (@Js.Ok Js.JsVal Samples.overview_payload) in Hmiss.
  cbv iota beta in Hmiss. destruct Hmiss as (Hsecond & _ & Hfetched).
  split; [exact Hsecond |]. by rewrite Hfetched.
Defined.

(* ===================================================================== *)
(** * The hybrid search *)
(* ===================================================================== *)

Section SearchFacts.
Import Js Explore.

Lemma sameValueZero_eq v w : sameValueZero v w = true -> v = w.
Proof.
  destruct v, w; simpl; try discriminate; try reflexivity.
  - rewrite bool_decide_eq_true. by intros ->.
  - rewrite str_eqb_true. by intros ->.
  - rewrite str_eqb_true. by intros ->.
Qed.

Lemma sameValueZero_string t : sameValueZero (JStr t) (JStr t) = true.
Proof. simpl. apply str_eqb_refl. Qed.

Lemma Set_has_add seen s v :
  Set_has (Set_add s seen) v = Set_has seen v || sameValueZero v s.
Proof.
  unfold Set_has, Set_add.
  destruct (existsb (sameValueZero s) seen) eqn:Hs.
  - destruct (sameValueZero v s) eqn:Hvs; [| by rewrite orb_false_r].
    apply sameValueZero_eq in Hvs as ->. by rewrite Hs.
  - rewrite existsb_app. simpl. by rewrite orb_false_r.
Qed.

(** The set built by [combined.forEach(item => seen.add(item.symbol))]
    holds the symbols of [combined]. *)
Lemma Set_has_forEach (combined : list HybridSearchResult) seen v :
  Set_has (fold_left (fun seen item => Set_add (symbol item) seen) combined seen) v
  = Set_has seen v || symbol_among combined v.
Proof.
  revert seen. induction combined as [|item rest IH]; intros seen; simpl.
  - by rewrite orb_false_r.
  - rewrite IH, Set_has_add. unfold symbol_among. simpl.
    by rewrite orb_assoc.
Qed.

Lemma mapM_Forall {A B : Type} (P : B -> Prop) (f : A -> Exc B) xs ys :
  (forall x y, f x = Ok y -> P y) -> mapM f xs = Ok ys -> Forall P ys.
Proof.
  intros Hf. revert ys. induction xs as [|x xs IH]; intros ys; simpl.
  - intros [= <-]. constructor.
  - destruct (f x) as [y|] eqn:Hy; simpl; [| discriminate].
    destruct (mapM f xs) as [ys'|]; simpl; [| discriminate].
    intros [= <-]. constructor; [by apply (Hf x) | by apply IH].
Qed.

(** The remote results of the code are the remote matches of the settled
    search. *)
Lemma apiResults_remote typeErrorMessage searchApi query :
  apiResults typeErrorMessage searchApi query = remoteMatches (searchApi query).
Proof.
  unfold apiResults, apiResults_try, remoteMatches.
  destruct (searchApi query) as [data | e]; [| reflexivity]. cbn [bind].
  assert (Hitems : forall items,
            match mapM (fun item =>
                          let! sym := get typeErrorMessage item "1. symbol" in
                          let! nm := get typeErrorMessage item "2. name" in
                          Ok (mkResult sym nm None search)) items with
            | Ok rs => rs
            | Throw _ => []
            end
            = if existsb is_nullish items then []
              else List.map (fun item => mkResult (field item "1. symbol")
                                                  (field item "2. name") None search)
                            items).
  { intros items.
    assert (forall items,
              mapM (fun item =>
                      let! sym := get typeErrorMessage item "1. symbol" in
                      let! nm := get typeErrorMessage item "2. name" in
                      Ok (mkResult sym nm None search)) items
              = if existsb is_nullish items
                then Throw (mkError "TypeError" typeErrorMessage)
                else Ok (List.map (fun item => mkResult (field item "1. symbol")
                                                        (field item "2. name") None search)
                                  items)) as Hmap.
    { clear items. induction items as [|item items IH]; [reflexivity |].
      cbn [mapM existsb List.map].
      destruct item; cbn [get bind is_nullish orb]; try reflexivity;
        rewrite IH; by destruct (existsb is_nullish items). }
    rewrite Hmap. by destruct (existsb is_nullish items). }
  destruct data as [| | b | n | t | its | fields]; try reflexivity.
  cbn [get bind field].
  destruct (assoc "bestMatches" fields) as [| | b | n | t | items | fs];
    cbn [truthy]; try reflexivity.
  - by destruct b.
  - by destruct (negb (str_eqb n "0" || str_eqb n "NaN")).
  - by destruct (negb (str_eqb t "")).
  - apply Hitems.
Qed.

(** Remote matches are tagged [search] and carry no price. *)
Lemma remoteMatches_tagged settled :
  Forall (fun r => source r = search /\ result_price r = None)
         (remoteMatches settled).
Proof.
  unfold remoteMatches. destruct settled as [data |]; [| constructor].
  destruct (field data "bestMatches"); try constructor.
  destruct (existsb is_nullish items); [constructor |].
  apply List.Forall_forall. intros r Hr.
  apply List.in_map_iff in Hr as (item & <- & _). done.
Qed.

Lemma symbol_among_locals (src : Source) (items : list StockItem)
    (others : list HybridSearchResult) v :
  (symbol_among others v = true <-> exists l, In l others /\ symbol l = v) ->
  (symbol_among (List.map (localMatch src) items ++ others) v = true
   <-> exists l, In l (List.map (localMatch src) items ++ others) /\ symbol l = v).
Proof.
  intros Hothers. induction items as [|item items IH].
  - exact Hothers.
  - unfold symbol_among in *. simpl. rewrite orb_true_iff, IH. split.
    + intros [Heq | (l & Hl & Hsym)].
      * apply sameValueZero_eq in Heq. exists (localMatch src item). by split; [left |].
      * exists l. by split; [right |].
    + intros (l & [<- | Hl] & Hsym).
      * left. rewrite <- Hsym. apply sameValueZero_string.
      * right. by exists l.
Qed.

Section Running.

Variable toLowerCase : string -> string.
Variable typeErrorMessage : string.
Variable searchApi : string -> Exc JsVal.

Local Abbreviation matches := (Explore.matches toLowerCase).
Local Abbreviation fetchSearchResults :=
  (Explore.fetchSearchResults toLowerCase typeErrorMessage searchApi).
Local Abbreviation debouncedSearch :=
  (Explore.debouncedSearch toLowerCase typeErrorMessage searchApi).

(** What [fetchSearchResults] of a render commits. *)
Lemma fetchSearchResults_commits (r : Render) (q : string) (st : SearchState) :
  let locals :=
    List.map (localMatch gainer) (List.filter (matches (toLowerCase q)) (topGainers r))
    ++ List.map (localMatch loser) (List.filter (matches (toLowerCase q)) (topLosers r)) in
  fetchSearchResults r q st
  = mkSearch (locals
              ++ List.filter (fun m => negb (symbol_among locals (symbol m)))
                   (remoteMatches (searchApi q)))
             false.
Proof.
  cbv zeta. unfold Explore.fetchSearchResults, useCallback_lists, combinedResults.
  cbv zeta. rewrite apiResults_remote. do 2 f_equal.
  apply List.filter_ext. intros m. by rewrite Set_has_forEach.
Qed.

(** C1, at the point where the code departs from it: the function that the
    timer of the debounced search runs is the one made in the first render,
    which calls the [fetchSearchResults] of the first render, whose two
    lists are empty.  So for every query that is not blank, whatever gainers
    and losers the screen has loaded, the committed list is the list of the
    remote symbol-search matches, all of them, tagged [search] and without
    price: no entry is tagged [gainer] or [loser], and no remote match is
    left out for being a loaded symbol.  The [fetchSearchResults] of the
    current render, which nothing calls, would commit what the claim says:
    the loaded gainers whose lower-cased ticker includes the lower-cased
    trimmed query (tagged [gainer], with their price), then the losers that
    do (tagged [loser]), then the remote matches whose symbol is not that
    of a local match, each part in the order of its source. *)
Theorem debouncedSearch_commits (current : Render) (query : string)
    (st : SearchState) :
  trim query <> "" ->
  let q := trim query in
  let committed := searchResults (debouncedSearch current query st) in
  let gainerMatches :=
    List.map (fun item => mkResult (JStr (ticker item)) (JStr "") (Some (price item)) gainer)
      (List.filter (matches (toLowerCase q)) (topGainers current)) in
  let loserMatches :=
    List.map (fun item => mkResult (JStr (ticker item)) (JStr "") (Some (price item)) loser)
      (List.filter (matches (toLowerCase q)) (topLosers current)) in
  debouncedSearch current query st = fetchSearchResults firstRender q st /\
  committed = remoteMatches (searchApi q) /\
  Forall (fun m => source m = search /\ result_price m = None) committed /\
  (forall m, In m (gainerMatches ++ loserMatches) -> ~ In m committed) /\
  searchResults (fetchSearchResults current q st)
  = gainerMatches ++ loserMatches
    ++ List.filter
         (fun m => negb (symbol_among (gainerMatches ++ loserMatches) (symbol m)))
         (remoteMatches (searchApi q)) /\
  (forall v, symbol_among (gainerMatches ++ loserMatches) v = true
             <-> exists l, In l (gainerMatches ++ loserMatches) /\ symbol l = v).
Proof.
  intros Hquery. cbv zeta.
  assert (debouncedSearch current query st
          = fetchSearchResults firstRender (trim query) st) as Hrun.
  { unfold Explore.debouncedSearch, useMemo_once, searchCallback.
    rewrite bool_decide_true; [done |].
    destruct (trim query); [done | simpl; lia]. }
  assert (searchResults (debouncedSearch current query st)
          = remoteMatches (searchApi (trim query))) as Hcommitted.
  { rewrite Hrun, fetchSearchResults_commits. cbn.
    induction (remoteMatches (searchApi (trim query))) as [|m ms IH];
      [done | by cbn; rewrite IH]. }
  split; [exact Hrun |]. split; [exact Hcommitted |].
  split; [rewrite Hcommitted; apply remoteMatches_tagged |].
  split; [| split].
  - intros m Hlocal Hin. rewrite Hcommitted in Hin.
    pose proof (remoteMatches_tagged (searchApi (trim query))) as Htag.
    rewrite List.Forall_forall in Htag. destruct (Htag m Hin) as [Hsource _].
    apply List.in_app_or in Hlocal as [Hm | Hm];
      apply List.in_map_iff in Hm as (item & <- & _); discriminate Hsource.
  - rewrite fetchSearchResults_commits. cbn [searchResults].
    by rewrite <- app_assoc.
  - intros v. apply (symbol_among_locals gainer). rewrite <- (app_nil_r (List.map _ _)).
    apply (symbol_among_locals loser). unfold symbol_among. simpl.
    split; [discriminate | by intros (l & [] & _)].
Qed.

End Running.
End SearchFacts.

Lemma debouncedSearch_commits_witness :
  Explore.searchResults
    (Explore.debouncedSearch Samples.asciiLowerCase "" Samples.symbol_search
       (Explore.mkRender Samples.local_gainers []) "AA" Samples.idleSearch)
  = [Explore.mkResult (Js.JStr "AAPL") (Js.JStr "Apple Inc") None Explore.search;
     Explore.mkResult (Js.JStr "AA") (Js.JStr "Alcoa Corp") None Explore.search]
  /\ Explore.searchResults
       (Explore.fetchSearchResults Samples.asciiLowerCase "" Samples.symbol_search
          (Explore.mkRender Samples.local_gainers []) "AA" Samples.idleSearch)
     = [Explore.mkResult (Js.JStr "AAPL") (Js.JStr "") (Some "190.00") Explore.gainer;
        Explore.mkResult (Js.JStr "AA") (Js.JStr "Alcoa Corp") None Explore.search].
Proof.
  destruct (debouncedSearch_commits Samples.asciiLowerCase "" Samples.symbol_search
              (Explore.mkRender Samples.local_gainers []) "AA" Samples.idleSearch)
    as (_ & Hcommitted & _ & _ & Hcurrent & _).
  - vm_compute. discriminate.
  - split.
    + rewrite Hcommitted. vm_compute. reflexivity.
    + change (Js.trim "AA") with "AA" in Hcurrent. rewrite Hcurrent.
      vm_compute. reflexivity.
Defined.

(* ===================================================================== *)
(** * The watchlist store *)
(* ===================================================================== *)

Section WatchlistFacts.
Import Js WatchlistModal.

Lemma list_includes_spec (xs : list string) (x : string) :
  list_includes xs x = true <-> x ∈ xs.
Proof.
  unfold list_includes. rewrite existsb_exists. split.
  - intros (s & Hin & Heq). apply str_eqb_true in Heq as ->.
    by apply list_elem_of_In.
  - intros Hin. exists x. split; [by apply list_elem_of_In | apply str_eqb_refl].
Qed.

Lemma name_exists_spec (lists : list Watchlist) (n : string) :
  existsb (fun wl => str_eqb (name wl) n) lists = true
  <-> exists wl, wl ∈ lists /\ name wl = n.
Proof.
  rewrite existsb_exists. split.
  - intros (wl & Hin & Heq). exists wl. split; [by apply list_elem_of_In |].
    by apply str_eqb_true.
  - intros (wl & Hin & Heq). exists wl. split; [by apply list_elem_of_In |].
    by apply str_eqb_true.
Qed.

Lemma removed_spec (xs : list string) (x s : string) :
  s ∈ List.filter (fun s => negb (str_eqb s x)) xs <-> s ∈ xs /\ s <> x.
Proof.
  rewrite !list_elem_of_In, List.filter_In, negb_true_iff, str_eqb_false.
  done.
Qed.

Lemma toggleIn_name symbol n wl : name (toggleIn symbol n wl) = name wl.
Proof. unfold toggleIn. by destruct (negb (str_eqb (name wl) n)). Qed.

Lemma toggleIn_other symbol n wl : name wl <> n -> toggleIn symbol n wl = wl.
Proof.
  intros Hne. unfold toggleIn. apply str_eqb_false in Hne. by rewrite Hne.
Qed.

Lemma toggleIn_stocks symbol n wl :
  name wl = n ->
  stocks (toggleIn symbol n wl)
  = if list_includes (stocks wl) symbol
    then List.filter (fun s => negb (str_eqb s symbol)) (stocks wl)
    else stocks wl ++ [symbol].
Proof.
  intros Heq. unfold toggleIn. apply str_eqb_true in Heq. by rewrite Heq.
Qed.

(** Toggling flips the membership of the symbol. *)
Lemma toggleIn_flips symbol n wl :
  name wl = n ->
  (symbol ∈ stocks (toggleIn symbol n wl) <-> symbol ∉ stocks wl).
Proof.
  intros Heq. rewrite toggleIn_stocks by done.
  destruct (list_includes (stocks wl) symbol) eqn:Hin.
  - apply list_includes_spec in Hin. rewrite removed_spec. intuition congruence.
  - assert (symbol ∉ stocks wl) as Hnot.
    { intros H. apply list_includes_spec in H. congruence. }
    rewrite elem_of_app, list_elem_of_singleton. intuition congruence.
Qed.

(** Toggling leaves the membership of every other symbol alone. *)
Lemma toggleIn_keeps symbol n wl s :
  s <> symbol -> (s ∈ stocks (toggleIn symbol n wl) <-> s ∈ stocks wl).
Proof.
  intros Hne. destruct (decide (name wl = n)) as [Heq | Hother].
  - rewrite toggleIn_stocks by done.
    destruct (list_includes (stocks wl) symbol).
    + rewrite removed_spec. intuition congruence.
    + rewrite elem_of_app, list_elem_of_singleton. intuition congruence.
  - by rewrite toggleIn_other.
Qed.

Lemma toggleIn_NoDup symbol n wl :
  NoDup (stocks wl) -> NoDup (stocks (toggleIn symbol n wl)).
Proof.
  intros Hnodup. destruct (decide (name wl = n)) as [Heq | Hother].
  - rewrite toggleIn_stocks by done.
    destruct (list_includes (stocks wl) symbol) eqn:Hin.
    + apply NoDup_ListNoDup, List.NoDup_filter, NoDup_ListNoDup, Hnodup.
    + apply NoDup_app. split; [done |]. split; [| apply NoDup_singleton].
      intros s Hs Hsym. apply list_elem_of_singleton in Hsym as ->.
      apply list_includes_spec in Hs. congruence.
  - by rewrite toggleIn_other.
Qed.

Lemma handleToggle_persisted symbol n d :
  persisted (handleToggle symbol n d)
  = List.map (toggleIn symbol n) (watchlists (modal d)).
Proof. reflexivity. Qed.

Lemma handleToggle_in_sync symbol n d : in_sync (handleToggle symbol n d).
Proof. reflexivity. Qed.

Lemma create_unfold n d :
  create n d =
  if str_eqb (trim n) "" then setNewName n d
  else if existsb (fun wl => str_eqb (name wl) (trim n)) (watchlists (modal d))
  then setNewName n d
  else mkDevice (Some (watchlists (modal d) ++ [mkWatchlist (trim n) []]))
         (mkModal (watchlists (modal d) ++ [mkWatchlist (trim n) []]) ""
            (selected (modal d))).
Proof.
  unfold create, handleAddWatchlist. simpl.
  destruct (str_eqb (trim n) ""); [reflexivity |].
  by destruct (existsb _ _).
Qed.




(** C9: for every watchlist named n and every symbol, toggleMembership adds
    the symbol to the stocks (at the end) when it is absent and removes it
    when it is present; the membership of the other symbols and the
    watchlists with another name are left alone.  Hence toggling twice gives
    back the original membership, and stocks without repetition stay without
    repetition. *)
Theorem toggle_flips_membership (symbol n : string) (d : Device) :
  in_sync d ->
  let once := handleToggle symbol n d in
  let twice := handleToggle symbol n once in
  forall i wl, persisted d !! i = Some wl ->
    exists wl1 wl2,
      persisted once !! i = Some wl1 /\ persisted twice !! i = Some wl2 /\
      name wl1 = name wl /\ name wl2 = name wl /\
      (name wl = n ->
       (symbol ∈ stocks wl1 <-> symbol ∉ stocks wl) /\
       (symbol ∉ stocks wl -> stocks wl1 = stocks wl ++ [symbol])) /\
      (name wl <> n -> wl1 = wl /\ wl2 = wl) /\
      (forall s, s <> symbol -> (s ∈ stocks wl1 <-> s ∈ stocks wl)) /\
      (forall s, s ∈ stocks wl2 <-> s ∈ stocks wl) /\
      (NoDup (stocks wl) -> NoDup (stocks wl1) /\ NoDup (stocks wl2)).
Proof.
  intros Hsync. cbv zeta. intros i wl Hi.
  exists (toggleIn symbol n wl), (toggleIn symbol n (toggleIn symbol n wl)).
  assert (persisted (handleToggle symbol n d) !! i
          = Some (toggleIn symbol n wl)) as Honce.
  { rewrite handleToggle_persisted, Hsync, list_lookup_fmap.
    by rewrite Hi. }
  assert (persisted (handleToggle symbol n (handleToggle symbol n d)) !! i
          = Some (toggleIn symbol n (toggleIn symbol n wl))) as Htwice.
  { rewrite handleToggle_persisted.
    rewrite (handleToggle_in_sync symbol n d).
    by rewrite list_lookup_fmap, Honce. }
  split; [done |]. split; [done |].
  split; [apply toggleIn_name |].
  split; [by rewrite !toggleIn_name |].
  split; [| split; [| split; [| split]]].
  - intros Hname. split; [by apply toggleIn_flips |].
    intros Habsent. rewrite toggleIn_stocks by done.
    destruct (list_includes (stocks wl) symbol) eqn:Hin; [| reflexivity].
    by apply list_includes_spec in Hin.
  - intros Hother. by do 2 rewrite (toggleIn_other symbol n wl) by done.
  - intros s Hs. by apply toggleIn_keeps.
  - intros s. destruct (decide (s = symbol)) as [-> | Hs].
    + destruct (decide (name wl = n)) as [Hname | Hother].
      * rewrite toggleIn_flips by (by rewrite toggleIn_name).
        rewrite toggleIn_flips by done.
        destruct (decide (symbol ∈ stocks wl)); intuition.
      * by do 2 rewrite (toggleIn_other symbol n wl) by done.
    + by rewrite !toggleIn_keeps.
  - intros Hnodup. split; [by apply toggleIn_NoDup |].
    by do 2 apply toggleIn_NoDup.
Qed.

Lemma handleAddWatchlist_create d :
  handleAddWatchlist d = create (newName (modal d)) d.
Proof. unfold create, setNewName. by destruct d as [st [ws nm sel]]. Qed.


End WatchlistFacts.


Lemma toggle_flips_membership_witness :
  exists wl1 wl2,
    WatchlistModal.persisted
      (WatchlistModal.handleToggle "MSFT" "Tech" Samples.tech_device) !! 0
    = Some wl1
    /\ WatchlistModal.persisted
         (WatchlistModal.handleToggle "MSFT" "Tech"
            (WatchlistModal.handleToggle "MSFT" "Tech" Samples.tech_device)) !! 0
       = Some wl2
    /\ ("MSFT" ∉ WatchlistModal.stocks wl1)
    /\ ("MSFT" ∈ WatchlistModal.stocks wl2).
Proof.
  destruct (toggle_flips_membership "MSFT" "Tech" Samples.tech_device eq_refl 0
              (WatchlistModal.mkWatchlist "Tech" ["MSFT"]) eq_refl)
    as (wl1 & wl2 & Honce & Htwice & _ & _ & Hflip & _ & _ & Hback & _).
  exists wl1, wl2. split; [exact Honce |]. split; [exact Htwice |].
  destruct (Hflip eq_refl) as [Hflipped _]. split.
  - intros Hin. apply Hflipped in Hin. apply Hin. apply list_elem_of_here.
  - apply Hback. apply list_elem_of_here.
Defined.

(* ===================================================================== *)
(** * Debounce, throttle and memoize *)
(* ===================================================================== *)

Section PerformanceFacts.
Import Js Performance.

Context {A : Type}.

(** With no timer pending, and with the one timer of the last call
    pending, what follows runs the calls that get their quiet period. *)
Lemma debounce_from (delay : N) (tasks : list (@Task A)) :
  forall st : Debounced,
    (pending st = [] ->
     executed (fold_left (perform delay) tasks st)
     = executed st ++ trailing_calls delay tasks) /\
    (forall id due_at args,
       pending st = [mkTimer id due_at args] -> timeoutId st = Some id ->
       executed (fold_left (perform delay) tasks st)
       = executed st
         ++ match runs_at due_at tasks with
            | Some t' => [(t', args)]
            | None => []
            end ++ trailing_calls delay tasks).
Proof.
  induction tasks as [|[t a | t] rest IH]; intros st.
  - split; intros; simpl; by rewrite app_nil_r.
  - assert (clearTimeout (timeoutId st) (pending st) = [] ->
              executed (fold_left (perform delay) (Call t a :: rest) st)
              = executed st ++ trailing_calls delay (Call t a :: rest)) as Hcall.
    { intros Hclear. cbn [fold_left perform].
      destruct (IH (call delay t a st)) as [_ Hpending].
      rewrite (Hpending (nextId st) (t + delay)%N a).
      - reflexivity.
      - unfold call. cbn. by rewrite Hclear.
      - reflexivity. }
    split.
    + intros Hidle. apply Hcall. rewrite Hidle. by destruct (timeoutId st).
    + intros id due_at args Hpending Hid. rewrite Hcall; [done |].
      rewrite Hpending, Hid. cbn. by rewrite Nat.eqb_refl.
  - split.
    + intros Hidle. cbn [fold_left perform trailing_calls].
      destruct (IH (runTimers t st)) as [Hnone _]. rewrite Hnone.
      * unfold runTimers. cbn. rewrite Hidle. cbn. by rewrite app_nil_r.
      * unfold runTimers. cbn. by rewrite Hidle.
    + intros id due_at args Hpending Hid.
      cbn [fold_left perform trailing_calls runs_at].
      destruct (IH (runTimers t st)) as [Hnone Hone].
      destruct (due_at <=? t)%N eqn:Hdue.
      * rewrite Hnone.
        -- unfold runTimers. cbn. rewrite Hpending. cbn. unfold due. cbn.
           rewrite Hdue. cbn. by rewrite <- app_assoc.
        -- unfold runTimers. cbn. rewrite Hpending. cbn. unfold due. cbn.
           by rewrite Hdue.
      * rewrite (Hone id due_at args).
        -- unfold runTimers. cbn. rewrite Hpending. cbn. unfold due. cbn.
           rewrite Hdue. cbn. by rewrite app_nil_r.
        -- unfold runTimers. cbn. rewrite Hpending. cbn. unfold due. cbn.
           by rewrite Hdue.
        -- exact Hid.
Qed.

Lemma runs_at_due (due_at : N) (rest : list (@Task A)) t' :
  runs_at due_at rest = Some t' -> (due_at <= t')%N /\ In (Timers t') rest.
Proof.
  induction rest as [|[t a | t] rest IH]; cbn [runs_at]; [done | done |].
  destruct (due_at <=? t)%N eqn:Hdue.
  - intros [= <-]. split; [by apply N.leb_le | by left].
  - intros H. destruct (IH H) as [Hle Hin]. split; [done | by right].
Qed.

(** X1: a debounced function runs exactly the calls that get their quiet
    period.  Whatever the tasks of the JavaScript thread are (calls of the
    debounced function and turns of the event loop to the timers, at any
    times), [func] runs for a call if and only if, before the function is
    called again, the event loop turns to the timers at a time that is at
    least [delay] after the call; it runs at the first such turn, once, with
    the arguments of that call.  So every run comes at least [delay] after
    its call, in a turn of the event loop. *)
Theorem debounce_runs_trailing_calls (delay : N) (tasks : list (@Task A)) :
  debounce_run delay tasks = trailing_calls delay tasks /\
  Forall (fun ran => exists t, In (Call t ran.2) tasks
                               /\ (t + delay <= ran.1)%N
                               /\ In (Timers ran.1) tasks)
         (debounce_run delay tasks).
Proof.
  assert (debounce_run delay tasks = trailing_calls delay tasks) as Hrun.
  { unfold debounce_run. by destruct (debounce_from delay tasks debounce) as [-> _]. }
  split; [exact Hrun |]. rewrite Hrun. clear Hrun.
  induction tasks as [|[t a | t] rest IH]; cbn [trailing_calls].
  - constructor.
  - apply Forall_app. split.
    + destruct (runs_at (t + delay) rest) as [t' |] eqn:Hruns; [| constructor].
      apply runs_at_due in Hruns as [Hle Hin].
      constructor; [| constructor]. exists t. cbn.
      split; [by left |]. split; [done | by right].
    + eapply Forall_impl; [exact IH |].
      intros ran (t0 & Hcall & Hle & Hturn). exists t0.
      split; [by right |]. split; [done | by right].
  - eapply Forall_impl; [exact IH |].
    intros ran (t0 & Hcall & Hle & Hturn). exists t0.
    split; [by right |]. split; [done | by right].
Qed.

Lemma throttle_run_snoc (delay : Z) (calls : list (Z * A)) c :
  throttle_run delay (calls ++ [c])
  = throttled delay c.1 c.2 (throttle_run delay calls).
Proof. unfold throttle_run. by rewrite fold_left_app. Qed.

(** X2: a throttled function runs a subsequence of its calls, never before
    [Date.now()] has reached [delay], and any two calls that it runs are at
    least [delay] apart. *)
Theorem throttle_spaces_calls (delay : Z) (calls : list (Z * A)) :
  (0 <= delay)%Z ->
  let st := throttle_run delay calls in
  sublist (ran st) calls /\
  Forall (fun c => (delay <= c.1)%Z) (ran st) /\
  forall i j ci cj, i < j -> ran st !! i = Some ci -> ran st !! j = Some cj ->
    (ci.1 + delay <= cj.1)%Z.
Proof.
  intros Hdelay. cbv zeta.
  assert ((0 <= lastCall (throttle_run delay calls))%Z /\
          sublist (ran (throttle_run delay calls)) calls /\
          Forall (fun c => (delay <= c.1 <= lastCall (throttle_run delay calls))%Z)
                 (ran (throttle_run delay calls)) /\
          forall i j ci cj, i < j ->
            ran (throttle_run delay calls) !! i = Some ci ->
            ran (throttle_run delay calls) !! j = Some cj ->
            (ci.1 + delay <= cj.1)%Z) as (_ & Hsub & Hall & Hpairs).
  2:{ split; [done |]. split; [| done].
      eapply Forall_impl; [exact Hall |]. simpl. intros c ?. lia. }
  induction calls as [|[t args] calls IH] using rev_ind.
  { split; [reflexivity |]. split; [constructor |]. split; [constructor |].
    intros i j ci cj _ Hi. done. }
  destruct IH as (Hpos & Hsub & Hall & Hpairs).
  rewrite throttle_run_snoc. unfold throttled. simpl.
  destruct (delay <=? t - lastCall (throttle_run delay calls))%Z eqn:Hrun; simpl.
  - apply Z.leb_le in Hrun. split; [lia |]. split; [by apply sublist_app |]. split.
    + apply Forall_app. split.
      * eapply Forall_impl; [exact Hall |]. simpl. intros c ?. lia.
      * constructor; [simpl; lia | constructor].
    + intros i j ci cj Hij Hi Hj.
      destruct (decide (j < length (ran (throttle_run delay calls)))) as [Hjl | Hjl].
      * rewrite lookup_app_l in Hi by lia. rewrite lookup_app_l in Hj by done.
        by apply (Hpairs i j).
      * rewrite lookup_app_r in Hj by lia.
        destruct (j - length (ran (throttle_run delay calls))) as [|k] eqn:Hk;
          [| by destruct k].
        injection Hj as <-. simpl.
        assert (i < length (ran (throttle_run delay calls))) as Hil by lia.
        rewrite lookup_app_l in Hi by done.
        rewrite Forall_forall in Hall.
        assert (delay <= ci.1 <= lastCall (throttle_run delay calls))%Z;
          [| lia].
        apply Hall. by eapply list_elem_of_lookup_2.
  - split; [done |]. split; [by apply sublist_inserts_r |]. by split.
Qed.

Section MemoizeFacts.

Context {R : Type}.
Variable getKey : A -> string.
Variable func : nat -> A -> Exc R.

Local Abbreviation memoized := (Performance.memoized getKey func).
Local Abbreviation memo_run := (Performance.memo_run getKey func).

(** An entry of the cache is never removed nor replaced. *)
Lemma memoized_keeps (args : A) (st : Memo) k r :
  memo_cache st !! k = Some r -> memo_cache (memoized args st).2 !! k = Some r.
Proof.
  intros Hk. unfold Performance.memoized.
  destruct (memo_cache st !! getKey args) as [hit|] eqn:Hhit; [done |].
  destruct (func _ args); simpl; [| done].
  rewrite lookup_insert_ne; [done | congruence].
Qed.

Lemma memo_run_keeps (calls : list A) (st : Memo) k r :
  memo_cache st !! k = Some r -> memo_cache (memo_run calls st) !! k = Some r.
Proof.
  revert st. induction calls as [|args calls IH]; intros st Hk; [done |].
  simpl. apply IH. by apply memoized_keeps.
Qed.

(** X3: once a call of a memoized function has returned a result, every
    later call whose arguments have the same key returns that result without
    invoking the function again, whatever calls were made in between and
    whatever the function would return now. *)
Theorem memoize_returns_first_result (calls : list A) (a b : A) (st : Memo) r :
  getKey a = getKey b ->
  (memoized a st).1 = Ok r ->
  let st' := memo_run calls (memoized a st).2 in
  memoized b st' = (Ok r, st').
Proof.
  intros Hkey Hfirst. cbv zeta.
  assert (memo_cache (memoized a st).2 !! getKey a = Some r) as Hcached.
  { revert Hfirst. unfold Performance.memoized.
    destruct (memo_cache st !! getKey a) as [hit|] eqn:Hhit; simpl.
    - by intros [= <-].
    - destruct (func _ a); simpl; [| discriminate].
      intros [= <-]. apply lookup_insert_eq. }
  apply (memo_run_keeps calls) in Hcached.
  unfold Performance.memoized at 1. by rewrite <- Hkey, Hcached.
Qed.

End MemoizeFacts.

End PerformanceFacts.

Lemma throttle_spaces_calls_witness :
  Performance.ran
    (Performance.throttle_run 16 [(1000%Z, "a"); (1005%Z, "b"); (1020%Z, "c")])
  = [(1000%Z, "a"); (1020%Z, "c")]
  /\ (1000 + 16 <= 1020)%Z.
Proof.
  split; [reflexivity |].
  destruct (throttle_spaces_calls 16
              [(1000%Z, "a"); (1005%Z, "b"); (1020%Z, "c")]) as (_ & _ & Hapart);
    [lia |].
  apply (Hapart 0 1 (1000%Z, "a") (1020%Z, "c")); [lia | reflexivity | reflexivity].
Defined.

Lemma memoize_returns_first_result_witness :
  let getKey := fun n : nat => if Nat.even n then "even" else "odd" in
  let func := fun (k n : nat) => @Js.Ok nat (n + k) in
  let first := Performance.memoized getKey func 2 Performance.memoize in
  Performance.memoized getKey func 4 (Performance.memo_run getKey func [1; 3] first.2)
  = (Js.Ok 2, Performance.memo_run getKey func [1; 3] first.2).
Proof.
  cbv zeta.
  apply (memoize_returns_first_result
           (fun n : nat => if Nat.even n then "even" else "odd")
           (fun (k n : nat) => @Js.Ok nat (n + k)) [1; 3] 2 4);
    reflexivity.
Defined.

(* ===================================================================== *)
(** * The grids *)
(* ===================================================================== *)

Section GridFacts.
Import Grid.

Context {A : Type}.

Lemma pad_row_full (row : list (option A)) :
  GRID_COLUMNS <= length row -> pad_row row = row.
Proof.
  intros Hfull. rewrite pad_row_equation_1.
  destruct (decide (length row < GRID_COLUMNS)) as [Hlt | Hge]; [lia | reflexivity].
Qed.

Lemma pad_row_one (x : option A) : pad_row [x] = [x; None].
Proof.
  rewrite pad_row_equation_1. simpl.
  by rewrite pad_row_full by (simpl; unfold GRID_COLUMNS; lia).
Qed.

(** What the loop appends from the index [i] on: the remaining items, and
    one [null] when an odd number of them remains. *)
Lemma listData_from_spec (data : list A) (i : nat) (items : list (option A)) :
  listData_from data i items
  = items ++ List.map Some (drop i data)
    ++ (if Nat.odd (length (drop i data)) then [None] else []).
Proof.
  remember (length data - i) as budget eqn:Hbudget.
  revert i items Hbudget.
  induction budget as [budget IH] using (well_founded_induction lt_wf).
  intros i items Hbudget.
  rewrite listData_from_equation_1.
  destruct (decide (i < length data)) as [Hlt | Hge]; simpl.
  2:{ rewrite drop_ge by lia. simpl. by rewrite app_nil_r. }
  rewrite (IH (length data - (i + GRID_COLUMNS))); [| unfold GRID_COLUMNS; lia | done].
  rewrite <- app_assoc. f_equal. unfold slice, GRID_COLUMNS.
  replace (i + 2 - i) with 2 by lia.
  rewrite <- (drop_drop data 2 i).
  destruct (drop i data) as [|x [|y rest]] eqn:Hdrop.
  - apply (f_equal length) in Hdrop. rewrite length_drop in Hdrop. simpl in Hdrop. lia.
  - simpl. by rewrite pad_row_one.
  - simpl drop. simpl take. simpl List.map.
    rewrite pad_row_full by (simpl; unfold GRID_COLUMNS; lia).
    simpl length. rewrite Nat.odd_succ, Nat.even_succ. reflexivity.
Qed.

Lemma omap_id_Some (xs : list A) : omap id (List.map Some xs) = xs.
Proof. induction xs as [|x xs IH]; [done |]. simpl. f_equal. exact IH. Qed.

(** X5: the grid data of the two-column screens is the list of items, in
    order, followed by a single [null] when the number of items is odd: no
    item is lost or repeated, every row is full, and at most the last cell
    is a placeholder. *)
Theorem listData_pads_last_row (data : list A) :
  listData data
  = List.map Some data ++ (if Nat.odd (length data) then [None] else [])
  /\ omap id (listData data) = data
  /\ Nat.even (length (listData data)) = true.
Proof.
  assert (listData data
          = List.map Some data ++ (if Nat.odd (length data) then [None] else []))
    as Hspec.
  { unfold listData. rewrite listData_from_spec. by rewrite drop_0. }
  split; [exact Hspec |]. rewrite Hspec. split.
  - rewrite omap_app, omap_id_Some.
    destruct (Nat.odd (length data)); simpl; by rewrite app_nil_r.
  - rewrite length_app, length_map.
    destruct (Nat.odd (length data)) eqn:Hodd; simpl.
    + rewrite Nat.add_1_r, Nat.even_succ. exact Hodd.
    + rewrite Nat.add_0_r. unfold Nat.odd in Hodd. by destruct (Nat.even _).
Qed.

Lemma pages_concat_take (items : list A) (n : nat) :
  concat (List.map (fun pageIndex => slice items (pageIndex * 4) (pageIndex * 4 + 4))
            (seq 0 n))
  = take (n * 4) items.
Proof.
  induction n as [|n IH]; [by rewrite take_0 |].
  rewrite seq_S, List.map_app, concat_app, IH. simpl. rewrite app_nil_r.
  unfold slice. replace (n * 4 + 4 - n * 4) with 4 by lia.
  rewrite take_take_drop. f_equal. lia.
Qed.

(** X6: the pages of the Explore screen partition the list: put one after
    the other they give back the list, every page holds between one and four
    cards, and every page but the last holds exactly four. *)
Theorem pages_partition (items : list A) :
  concat (pages items) = items /\
  length (pages items) = (length items + 3) / 4 /\
  forall p page, pages items !! p = Some page ->
    1 <= length page <= 4 /\
    (S p < length (pages items) -> length page = 4).
Proof.
  assert (length (pages items) = (length items + 3) / 4) as Hlen.
  { unfold pages. by rewrite length_map, length_seq. }
  assert (length items <= (length items + 3) / 4 * 4) as Hcover.
  { pose proof (Nat.div_mod_eq (length items + 3) 4) as Hdiv.
    pose proof (Nat.mod_upper_bound (length items + 3) 4). lia. }
  split; [| split; [exact Hlen |]].
  - unfold pages. rewrite pages_concat_take. by apply take_ge.
  - intros p page Hpage.
    assert (p < (length items + 3) / 4) as Hp.
    { rewrite <- Hlen. by eapply lookup_lt_Some. }
    unfold pages in Hpage. rewrite list_lookup_fmap in Hpage.
    rewrite lookup_seq_lt in Hpage by done. simpl in Hpage.
    injection Hpage as <-. unfold slice.
    replace (p * 4 + 4 - p * 4) with 4 by lia.
    rewrite length_take, length_drop.
    assert (p * 4 < length items) as Hstart.
    { pose proof (Nat.div_mod_eq (length items + 3) 4) as Hdiv.
      pose proof (Nat.mod_upper_bound (length items + 3) 4). nia. }
    split; [lia |]. rewrite Hlen. intros Hnext.
    assert (S (S p) * 4 <= length items + 3) as Hfull.
    { pose proof (Nat.div_mod_eq (length items + 3) 4) as Hdiv.
      pose proof (Nat.mod_upper_bound (length items + 3) 4). nia. }
    lia.
Qed.

End GridFacts.

(* ===================================================================== *)
(** * The watchlist screens *)
(* ===================================================================== *)

Section WatchlistScreenFacts.
Import Js WatchlistModal WatchlistScreens.

Lemma find_toggled symbol n m (lists : list Watchlist) :
  List.find (fun w => str_eqb (name w) m) (List.map (toggleIn symbol n) lists)
  = toggleIn symbol n <$> List.find (fun w => str_eqb (name w) m) lists.
Proof.
  induction lists as [|wl lists IH]; [reflexivity |].
  simpl. rewrite toggleIn_name. by destruct (str_eqb (name wl) m).
Qed.

Lemma find_named (lists : list Watchlist) m :
  (exists wl, wl ∈ lists /\ name wl = m) ->
  exists wl, List.find (fun w => str_eqb (name w) m) lists = Some wl /\ name wl = m.
Proof.
  intros (wl & Hin & Hname).
  destruct (List.find (fun w => str_eqb (name w) m) lists) as [found|] eqn:Hfind.
  - exists found. split; [done |].
    apply List.find_some in Hfind as [_ Heq]. by apply str_eqb_true.
  - apply list_elem_of_In in Hin.
    pose proof (List.find_none _ _ Hfind wl Hin) as Hno. simpl in Hno.
    apply str_eqb_false in Hno. contradiction.
Qed.

(** X7: what the watchlist details screen loads follows the toggles of the
    modal.  After the symbol was toggled in the watchlist n, the details
    screen of n shows the symbol if and only if it did not before (a symbol
    that was absent comes last); the details screen of every other
    watchlist shows what it did; and when no watchlist is named n the stored
    collection is the same as before. *)
Theorem toggle_then_loadWatchlist (symbol n m : string) (d : Device) :
  in_sync d ->
  let before := loadWatchlist m (storage d) in
  let after := loadWatchlist m (storage (handleToggle symbol n d)) in
  (m <> n -> after = before) /\
  (m = n -> (exists wl, wl ∈ persisted d /\ name wl = n) ->
   (symbol ∈ after <-> symbol ∉ before) /\
   (symbol ∉ before -> after = before ++ [symbol])) /\
  ((forall wl, wl ∈ persisted d -> name wl <> n) ->
   persisted (handleToggle symbol n d) = persisted d).
Proof.
  intros Hsync. cbv zeta.
  assert (loadWatchlist m (storage (handleToggle symbol n d))
          = match List.find (fun w => str_eqb (name w) m) (persisted d) with
            | Some wl => stocks (toggleIn symbol n wl)
            | None => []
            end) as Hafter.
  { unfold loadWatchlist. simpl. rewrite Hsync, find_toggled.
    by destruct (List.find _ (persisted d)). }
  assert (loadWatchlist m (storage d)
          = match List.find (fun w => str_eqb (name w) m) (persisted d) with
            | Some wl => stocks wl
            | None => []
            end) as Hbefore.
  { unfold loadWatchlist, persisted. by destruct (storage d). }
  rewrite Hafter, Hbefore. split; [| split].
  - intros Hother.
    destruct (List.find _ (persisted d)) as [wl|] eqn:Hfind; [| reflexivity].
    apply List.find_some in Hfind as [_ Hname]. apply str_eqb_true in Hname.
    rewrite toggleIn_other; [done | congruence].
  - intros -> Hexists. destruct (find_named _ _ Hexists) as (wl & -> & Hname).
    split; [by apply toggleIn_flips |].
    intros Habsent. rewrite toggleIn_stocks by done.
    destruct (list_includes (stocks wl) symbol) eqn:Hin; [| reflexivity].
    by apply list_includes_spec in Hin.
  - intros Hnone. rewrite handleToggle_persisted, Hsync.
    rewrite <- (List.map_id (persisted d)) at 2.
    apply List.map_ext_in. intros wl Hwl. apply toggleIn_other.
    apply Hnone. by apply list_elem_of_In.
Qed.

Section FetchStocksFacts.

Variable typeErrorMessage : string.
Variable overviewApi : nat -> string -> Exc JsVal.

Local Abbreviation fetchStocks_loop :=
  (WatchlistScreens.fetchStocks_loop typeErrorMessage overviewApi).
Local Abbreviation fetchStocks :=
  (WatchlistScreens.fetchStocks typeErrorMessage overviewApi).

Lemma stock_of_symbol sym settled :
  symbol (stock_of typeErrorMessage sym settled) = sym.
Proof.
  unfold stock_of, stock_try. destruct settled as [data|]; simpl; [| done].
  destruct (get typeErrorMessage data "Name"); simpl; [| done].
  by destruct (get typeErrorMessage data "50DayMovingAverage").
Qed.

Lemma fetchStocks_loop_symbols n symbols results :
  List.map symbol (fetchStocks_loop n symbols results)
  = List.map symbol results ++ symbols.
Proof.
  revert n results. induction symbols as [|sym rest IH]; intros n results; simpl.
  - by rewrite app_nil_r.
  - rewrite IH, List.map_app. simpl. rewrite stock_of_symbol.
    by rewrite <- app_assoc.
Qed.

Lemma fetchStocks_loop_failing n symbols results :
  (forall k sym, exists e, overviewApi k sym = Throw e) ->
  fetchStocks_loop n symbols results
  = results ++ List.map (fun sym => mkStock sym (JStr sym) (JStr "0.00")) symbols.
Proof.
  intros Hfail. revert n results.
  induction symbols as [|sym rest IH]; intros n results; simpl.
  - by rewrite app_nil_r.
  - rewrite IH. destruct (Hfail n sym) as [e He].
    unfold stock_of, stock_try. rewrite He. simpl. by rewrite <- app_assoc.
Qed.

(** X8: the details screen gets one card per symbol of the watchlist, in
    the order of the watchlist, whatever the provider answers: a request
    that fails, or an answer that cannot be read, gives the card of the
    symbol with the symbol as its name and the price "0.00". *)
Theorem fetchStocks_one_card_per_symbol (symbols : list string) :
  List.map symbol (fetchStocks symbols) = symbols /\
  ((forall k sym, exists e, overviewApi k sym = Throw e) ->
   fetchStocks symbols
   = List.map (fun sym => mkStock sym (JStr sym) (JStr "0.00")) symbols).
Proof.
  split.
  - unfold WatchlistScreens.fetchStocks. by rewrite fetchStocks_loop_symbols.
  - intros Hfail. unfold WatchlistScreens.fetchStocks.
    by rewrite fetchStocks_loop_failing.
Qed.

End FetchStocksFacts.


(** X10: a watchlist that was created is listed: after create(n) with a
    name that is not blank and not taken, the watchlist screen shows the
    former names followed by n trimmed, and the details screen of the new
    watchlist has no symbols. *)
Theorem created_watchlist_is_listed (n : string) (d : Device) (shown : list string) :
  in_sync d ->
  trim n <> "" ->
  (forall wl, wl ∈ persisted d -> name wl <> trim n) ->
  load (storage (create n d)) shown = List.map name (persisted d) ++ [trim n] /\
  loadWatchlist (trim n) (storage (create n d)) = [].
Proof.
  intros Hsync Hblank Hfresh.
  assert (storage (create n d) = Some (persisted d ++ [mkWatchlist (trim n) []]))
    as Hstored.
  { rewrite create_unfold. apply str_eqb_false in Hblank. rewrite Hblank.
    destruct (existsb _ _) eqn:Hexists.
    - rewrite Hsync in Hexists.
      apply name_exists_spec in Hexists as (wl & Hin & Hname).
      by destruct (Hfresh wl Hin).
    - simpl. by rewrite Hsync. }
  rewrite Hstored. split.
  - unfold load. by rewrite List.map_app.
  - unfold loadWatchlist.
    destruct (List.find _ _) as [wl|] eqn:Hfind; [| reflexivity].
    apply List.find_some in Hfind as [Hin Hname].
    apply str_eqb_true in Hname.
    apply List.in_app_iff in Hin as [Hin | [<- | []]]; [| reflexivity].
    apply list_elem_of_In in Hin. by destruct (Hfresh wl Hin).
Qed.

End WatchlistScreenFacts.

(* ===================================================================== *)
(** * The check boxes of the watchlist modal *)
(* ===================================================================== *)

Section ModalSessionFacts.
Import Js WatchlistModal ModalSession.

Variable symbol : string.

Local Abbreviation consistent := (ModalSession.consistent symbol).

Lemma assign_other k b (sel : gmap string bool) k' :
  k' <> k -> assign k b sel !! k' = sel !! k'.
Proof.
  intros Hne. unfold assign. destruct (_ && _); [done |].
  by rewrite lookup_insert_ne.
Qed.

Lemma assign_own k b (sel : gmap string bool) :
  k ∉ objectPrototypeKeys -> assign k b sel !! k = Some b.
Proof.
  intros Hk. unfold assign. destruct (str_eqb k "__proto__") eqn:Hproto.
  - apply str_eqb_true in Hproto. subst k. exfalso. apply Hk.
    apply (bool_decide_unpack _). by vm_compute.
  - simpl. apply lookup_insert_eq.
Qed.

Lemma objectPrototypeKeys_trimmed n :
  n ∈ objectPrototypeKeys -> trim n = n /\ n <> "".
Proof.
  unfold objectPrototypeKeys. intros Hn.
  repeat (apply elem_of_cons in Hn as [-> | Hn]; [by split; vm_compute |]).
  by apply elem_of_nil in Hn.
Qed.

Lemma loaded_selection (lists : list Watchlist) :
  NoDup (List.map name lists) ->
  let sel := fold_left
               (fun (sel : gmap string bool) wl =>
                  assign (name wl) (list_includes (stocks wl) symbol) sel)
               lists ∅ in
  (forall wl, wl ∈ lists -> name wl ∉ objectPrototypeKeys ->
     sel !! name wl = Some (list_includes (stocks wl) symbol))
  /\ (forall n, (forall wl, wl ∈ lists -> name wl <> n) -> sel !! n = None).
Proof.
  cbv zeta. induction lists as [|wl lists IH] using rev_ind; intros Hnodup.
  - split; [intros wl Hwl; by apply elem_of_nil in Hwl | done].
  - rewrite List.map_app in Hnodup. apply NoDup_app in Hnodup as (Hnodup & Hfresh & _).
    destruct (IH Hnodup) as [Hlisted Hother].
    rewrite fold_left_app. simpl. split.
    + intros wl' Hwl' Hown. apply elem_of_app in Hwl' as [Hwl' | Hwl'].
      * rewrite assign_other; [by apply Hlisted |].
        intros Heq. apply (Hfresh (name wl')).
        -- apply list_elem_of_In, List.in_map. by apply list_elem_of_In.
        -- simpl. rewrite Heq. apply list_elem_of_here.
      * apply list_elem_of_singleton in Hwl' as ->. by apply assign_own.
    + intros n Hn. rewrite assign_other.
      * apply Hother. intros wl' Hwl'. apply Hn. apply elem_of_app. by left.
      * intros ->. by apply (Hn wl); [apply elem_of_app; right;
                                       apply list_elem_of_singleton |].
Qed.

Lemma loadWatchlists_consistent (d : Device) :
  NoDup (List.map name (persisted d)) -> consistent (loadWatchlists symbol d).
Proof.
  intros Hnodup. destruct (loaded_selection (persisted d) Hnodup) as [Hlisted Hother].
  split; [reflexivity |]. split; [exact Hnodup |]. split.
  - intros wl Hwl Hown. unfold checked, reads_truthy. simpl in *.
    by rewrite (Hlisted wl Hwl Hown).
  - exact Hother.
Qed.

Lemma list_includes_toggled n wl :
  name wl = n ->
  list_includes (stocks (toggleIn symbol n wl)) symbol
  = negb (list_includes (stocks wl) symbol).
Proof.
  intros Hname. pose proof (toggleIn_flips symbol n wl Hname) as Hflip.
  rewrite <- !list_includes_spec in Hflip.
  destruct (list_includes (stocks (toggleIn symbol n wl)) symbol),
           (list_includes (stocks wl) symbol); simpl; try done.
  - exfalso. by apply Hflip.
  - exfalso. assert (false = true) as Habs; [| done]. apply Hflip. done.
Qed.

Lemma step_consistent (d : Device) (s : Step) :
  consistent d -> consistent (step symbol d s).
Proof.
  intros (Hsync & Hnodup & Hboxes & Hother).
  destruct s as [text | | row]; simpl.
  - by repeat split.
  - rewrite handleAddWatchlist_create, create_unfold.
    destruct (str_eqb (trim (newName (modal d))) "").
    { destruct d as [st [ws nm sel]]. by repeat split. }
    destruct (existsb _ _) eqn:Hexists.
    { destruct d as [st [ws nm sel]]. by repeat split. }
    assert (forall wl, wl ∈ watchlists (modal d) ->
              name wl <> trim (newName (modal d))) as Hfresh.
    { intros wl Hwl Hname.
      assert (existsb (fun wl => str_eqb (name wl) (trim (newName (modal d))))
                (watchlists (modal d)) = true) as Habs; [| congruence].
      apply name_exists_spec. by exists wl. }
    split; [reflexivity |]. simpl. split; [| split].
    + rewrite List.map_app. apply NoDup_app. split; [done |].
      split; [| apply NoDup_singleton].
      intros x Hx Hnew. apply list_elem_of_singleton in Hnew as ->.
      apply list_elem_of_In, List.in_map_iff in Hx as (wl & Hname & Hin).
      apply (Hfresh wl); [by apply list_elem_of_In | done].
    + intros wl Hwl Hown. apply elem_of_app in Hwl as [Hwl | Hwl].
      * by apply Hboxes.
      * apply list_elem_of_singleton in Hwl as ->.
        unfold checked, reads_truthy. simpl in *.
        rewrite (Hother _ Hfresh). by apply bool_decide_eq_false.
    + intros n Hn. apply Hother. intros wl Hwl. apply Hn.
      apply elem_of_app. by left.
  - destruct (watchlists (modal d) !! row) as [item|] eqn:Hrow; [| by repeat split].
    assert (item ∈ watchlists (modal d)) as Hitem by (by eapply list_elem_of_lookup_2).
    split; [reflexivity |]. simpl. split; [| split].
    + rewrite List.map_map. erewrite List.map_ext; [exact Hnodup |].
      intros wl. apply toggleIn_name.
    + intros wl' Hwl'.
      apply list_elem_of_In, List.in_map_iff in Hwl' as (wl & <- & Hwl).
      apply list_elem_of_In in Hwl. rewrite toggleIn_name. intros Hown.
      unfold checked, reads_truthy. simpl.
      destruct (decide (name wl = name item)) as [Hname | Hname].
      * rewrite Hname, lookup_insert_eq, list_includes_toggled by done.
        rewrite <- (Hboxes wl Hwl Hown), Hname. reflexivity.
      * rewrite lookup_insert_ne by done. rewrite toggleIn_other by done.
        by apply Hboxes.
    + intros n Hn. rewrite lookup_insert_ne.
      * apply Hother. intros wl Hwl. rewrite <- (toggleIn_name symbol (name item)).
        apply Hn. apply list_elem_of_In, List.in_map. by apply list_elem_of_In.
      * rewrite <- (toggleIn_name symbol (name item) item).
        apply Hn. apply list_elem_of_In, List.in_map. by apply list_elem_of_In.
Qed.

(** X11: the check boxes of the modal tell the truth about every watchlist
    whose name is not the name of a property that a plain object inherits
    ([constructor], [toString], [__proto__] and the like).  When the stored
    names are unique, then after the modal was opened for a symbol and the
    user typed names, pressed Add and pressed rows in any order (each action
    after the previous one has settled), the check box of every such
    watchlist is ticked if and only if the symbol is among the stocks stored
    for that watchlist.  (A watchlist with an inherited name that was just
    added shows a ticked box although it holds no symbol.) *)
Theorem session_checkboxes_show_membership (steps : list Step) (d : Device) :
  NoDup (List.map name (persisted d)) ->
  let d' := session symbol steps d in
  (forall wl, wl ∈ persisted d' -> name wl ∉ objectPrototypeKeys ->
     (checked d' (name wl) = true <-> symbol ∈ stocks wl)) /\
  (forall n, n ∈ objectPrototypeKeys ->
     (forall wl, wl ∈ persisted d' -> name wl <> n) ->
     let added := step symbol (step symbol d' (TypeText n)) Add in
     persisted added = persisted d' ++ [mkWatchlist n []] /\
     checked added n = true).
Proof.
  intros Hnodup. cbv zeta.
  assert (consistent (session symbol steps d)) as (Hsync & _ & Hboxes & Hother).
  { unfold session. pose proof (loadWatchlists_consistent d Hnodup) as Hloaded.
    revert Hloaded. generalize (loadWatchlists symbol d).
    induction steps as [|s steps IH]; intros d0 Hd0; [exact Hd0 |].
    simpl. apply IH. by apply step_consistent. }
  split.
  - intros wl Hwl Hown. rewrite <- Hsync in Hwl.
    rewrite (Hboxes wl Hwl Hown). apply list_includes_spec.
  - intros n Hn Hfresh. set (d' := session symbol steps d) in *.
    destruct (objectPrototypeKeys_trimmed n Hn) as [Htrim Hblank].
    cbn [step]. rewrite handleAddWatchlist_create, create_unfold.
    cbn [setNewName modal newName watchlists]. rewrite Htrim.
    rewrite (proj2 (str_eqb_false _ _) Hblank).
    destruct (existsb _ _) eqn:Hexists.
    { apply name_exists_spec in Hexists as (wl & Hwl & Hname).
      rewrite Hsync in Hwl. by destruct (Hfresh wl Hwl). }
    split; [cbn; by rewrite Hsync |].
    unfold checked, reads_truthy. cbn.
    rewrite Hother; [by apply bool_decide_eq_true |].
    intros wl Hwl. rewrite Hsync in Hwl. by apply Hfresh.
Qed.

End ModalSessionFacts.

Lemma session_checkboxes_show_membership_witness :
  let d' := ModalSession.session "MSFT"
              [ModalSession.PressRowAt 0; ModalSession.TypeText "Energy";
               ModalSession.Add; ModalSession.PressRowAt 1]
              Samples.tech_device in
  WatchlistModal.persisted d'
  = [WatchlistModal.mkWatchlist "Tech" []; WatchlistModal.mkWatchlist "Energy" ["MSFT"]]
  /\ ModalSession.checked d' "Energy" = true.
Proof.
  cbv zeta. split; [reflexivity |].
  destruct (session_checkboxes_show_membership "MSFT"
              [ModalSession.PressRowAt 0; ModalSession.TypeText "Energy";
               ModalSession.Add; ModalSession.PressRowAt 1]
              Samples.tech_device
              ltac:(vm_compute; repeat constructor; apply not_elem_of_nil))
    as [Hboxes _].
  apply (Hboxes (WatchlistModal.mkWatchlist "Energy" ["MSFT"])).
  - vm_compute. apply list_elem_of_further, list_elem_of_here.
  - apply (bool_decide_unpack _). by vm_compute.
  - apply list_elem_of_here.
Defined.

(* ===================================================================== *)
(** * The movers: what is fetched and what is shown *)
(* ===================================================================== *)

Section MoversFacts.
Import Js Api.

Variable typeErrorMessage conversionMessage API_KEY abortMessage : string.

Local Abbreviation makeRequest := (Api.makeRequest typeErrorMessage conversionMessage API_KEY abortMessage).
Local Abbreviation try_block := (Api.try_block typeErrorMessage conversionMessage API_KEY abortMessage).
Local Abbreviation getTopGainers := (Api.getTopGainers typeErrorMessage conversionMessage API_KEY abortMessage).
Local Abbreviation getTopLosers := (Api.getTopLosers typeErrorMessage conversionMessage API_KEY abortMessage).

Lemma filter_idem {B : Type} (f : B -> bool) (xs : list B) :
  List.filter f (List.filter f xs) = List.filter f xs.
Proof.
  induction xs as [|x xs IH]; [reflexivity |]. simpl.
  destruct (f x) eqn:Hx; simpl; [by rewrite Hx, IH | exact IH].
Qed.

(** X12: validating twice is validating once: the list that movers-list
    validation returns passes validation unchanged, and each of its entries
    is a kept entry. *)
Theorem validateStockData_idempotent (data : JsVal) (items : list JsVal) :
  validateStockData typeErrorMessage conversionMessage data = Ok items ->
  validateStockData typeErrorMessage conversionMessage (JArr items) = Ok items /\
  Forall (fun item => kept_entry item = true) items.
Proof.
  intros Hitems. apply validateStockData_kept in Hitems as ->.
  assert (Forall (fun item => kept_entry item = true) (kept_entries data)) as Hkept.
  { apply List.Forall_forall. intros item Hitem.
    destruct data; simpl in Hitem; try done.
    by apply List.filter_In in Hitem as [_ ?]. }
  split; [| exact Hkept].
  rewrite validateStockData_spec.
  assert (raising (JArr (kept_entries data)) = false) as ->.
  { cbn [raising]. apply not_true_is_false. intros Hex.
    apply List.existsb_exists in Hex as (item & Hitem & Hraise).
    rewrite List.Forall_forall in Hkept.
    rewrite (kept_entry_not_raising item (Hkept item Hitem)) in Hraise.
    discriminate Hraise. }
  f_equal. destruct data; try reflexivity. simpl. apply filter_idem.
Qed.

(** A response that is read successfully has status ok and a body without a
    truthy sentinel field. *)
Lemma read_response_ok r data :
  read_response typeErrorMessage conversionMessage r = Ok data ->
  ok r = true /\ body r = BodyJson data /\ sentinel_message data = None.
Proof.
  assert (forall v, @new_Error conversionMessage JsVal v <> Ok data) as Hnew.
  { intros v. unfold new_Error, to_string. by destruct (text v). }
  unfold read_response, sentinel_message, sentinel.
  destruct (ok r); simpl; [| discriminate].
  destruct (body r) as [payload | e]; [| discriminate].
  destruct payload as [| | b | n | t | items | fields]; simpl; try discriminate;
    try (by intros [= <-]).
  destruct (truthy (assoc "Error Message" fields)) eqn:Hmessage;
    [intros H; by apply Hnew in H |].
  destruct (truthy (assoc "Note" fields)) eqn:Hnote;
    [intros H; by apply Hnew in H |].
  intros [= <-]. simpl. by rewrite Hmessage, Hnote.
Qed.

Lemma try_block_ok endpoint a data :
  result (try_block endpoint a) = Ok data ->
  (latency a < TIMEOUT)%N /\
  exists r, outcome a = Resolves r /\ ok r = true /\ body r = BodyJson data
            /\ sentinel_message data = None.
Proof.
  destruct (N.le_gt_cases TIMEOUT (latency a)) as [Hlate | Hlate].
  - by rewrite try_block_aborted.
  - rewrite try_block_in_time by done. simpl.
    destruct (outcome a) as [e | r]; [discriminate |].
    intros Hread. split; [done |]. exists r. split; [done |].
    by apply read_response_ok.
Qed.

(** X13: a request succeeds only with a payload that does not signal an
    error: whatever [makeRequest] returns was served in time, with an ok
    status, by the last attempt of the run, and carries no truthy
    'Error Message' or 'Note'. *)
Theorem makeRequest_returns_clean_payload (net : nat -> Attempt) endpoint k data :
  result (makeRequest net endpoint k) = Ok data ->
  sentinel_message data = None /\
  exists (n : nat) (r : Response), (k + n <= Nat.max k RETRY_ATTEMPTS)%nat /\
    fetches (trace (makeRequest net endpoint k)) = (n + 1)%nat /\
    (latency (net (k + n)%nat) < TIMEOUT)%N /\
    outcome (net (k + n)) = Resolves r /\ ok r = true /\ body r = BodyJson data.
Proof.
  intros Hok.
  destruct (makeRequest_runs typeErrorMessage conversionMessage API_KEY abortMessage net endpoint k)
    as (n & Hn & Htrace & Hresult & _ & _).
  rewrite Hresult in Hok. unfold final_result in Hok.
  destruct (result (try_block endpoint (net (k + n)))) as [payload | e] eqn:Hlast.
  2:{ by destruct (bool_decide (name e = "AbortError")). }
  injection Hok as ->.
  apply try_block_ok in Hlast as (Hlate & r & Hout & Hstatus & Hbody & Hclean).
  split; [exact Hclean |]. exists n, r.
  split; [lia |]. split; [| done].
  by rewrite Htrace, fetches_app, retried_attempts_fetches, try_block_fetches.
Qed.

(** The movers of a result of the validator are the kept entries of the
    payload's fields. *)
Lemma validateTopGainersResponse_fields (data : JsVal) resp :
  validateTopGainersResponse typeErrorMessage conversionMessage data
  = Ok (Some resp) ->
  top_gainers resp = kept_entries (field data "top_gainers") /\
  top_losers resp = kept_entries (field data "top_losers").
Proof.
  rewrite validateTopGainersResponse_spec.
  destruct (_ || _); [discriminate |].
  destruct (sentinel data); [discriminate |].
  destruct (_ || _); [discriminate |]. by intros [= <-].
Qed.

(** X14: the movers that [getTopGainers] and [getTopLosers] return are the
    kept entries of the payload's top_gainers and top_losers, in the
    payload's order; and every failure of theirs is a plain [Error]. *)
Theorem getMovers_return_kept_entries (net : nat -> Attempt) :
  (forall items, result (getTopGainers net) = Ok items ->
     exists data, result (makeRequest net TOP_GAINERS_LOSERS 0) = Ok data /\
       items = kept_entries (field data "top_gainers")) /\
  (forall items, result (getTopLosers net) = Ok items ->
     exists data, result (makeRequest net TOP_GAINERS_LOSERS 0) = Ok data /\
       items = kept_entries (field data "top_losers")) /\
  (forall e, result (getTopGainers net) = Throw e \/ result (getTopLosers net) = Throw e ->
     name e = "Error").
Proof.
  unfold Api.getTopGainers, Api.getTopLosers, getMovers. cbv zeta. simpl.
  destruct (result (makeRequest net TOP_GAINERS_LOSERS 0)) as [data | err]; simpl.
  2:{ split; [intros items [=] |]. split; [intros items [=] |].
      by intros e [[= <-] | [= <-]]. }
  destruct (validateTopGainersResponse typeErrorMessage conversionMessage data)
    as [[resp |] | err] eqn:Hvalid; simpl.
  - destruct (validateTopGainersResponse_fields data resp Hvalid)
      as (Hgainers & Hlosers).
    split; [| split].
    + intros items [= <-]. by exists data.
    + intros items [= <-]. by exists data.
    + by intros e [[=] | [=]].
  - split; [intros items [=] |]. split; [intros items [=] |].
    by intros e [[= <-] | [= <-]].
  - split; [intros items [=] |]. split; [intros items [=] |].
    by intros e [[= <-] | [= <-]].
Qed.

End MoversFacts.

Section MarketFacts.
Import Js Api Market.

Variable typeErrorMessage conversionMessage API_KEY abortMessage : string.

Local Abbreviation fetchData := (Market.fetchData typeErrorMessage conversionMessage API_KEY abortMessage).
Local Abbreviation getTopGainers := (Api.getTopGainers typeErrorMessage conversionMessage API_KEY abortMessage).
Local Abbreviation getTopLosers := (Api.getTopLosers typeErrorMessage conversionMessage API_KEY abortMessage).

Lemma movers_fetches (net : nat -> Attempt) :
  1 <= fetches (trace (getTopGainers net)) <= 4 /\
  1 <= fetches (trace (getTopLosers net)) <= 4.
Proof.
  unfold Api.getTopGainers, Api.getTopLosers, getMovers. simpl.
  destruct (makeRequest_runs typeErrorMessage conversionMessage API_KEY abortMessage net
              TOP_GAINERS_LOSERS 0) as (n & Hn & Htrace & _).
  rewrite Htrace, fetches_app, retried_attempts_fetches, try_block_fetches.
  unfold RETRY_ATTEMPTS in Hn. lia.
Qed.

(** X15: the market data of the Explore screen is all or nothing.  After
    [fetchData] the screen is no longer loading, and either no error is set
    and the two lists are what [getTopGainers] and then [getTopLosers]
    returned, or an error is set and both lists are empty.  Without an API
    key (or with the placeholder) nothing is requested; when the gainers
    cannot be fetched the losers are not requested; and a call issues at
    most 8 requests. *)
Theorem fetchData_all_or_nothing (net : nat -> Attempt) :
  let st := (fetchData net).1 in
  let events := (fetchData net).2 in
  loading st = false /\
  (error st = None \/ (topGainers st = [] /\ topLosers st = [])) /\
  (error st = None ->
   result (getTopGainers net) = Ok (topGainers st) /\
   result (getTopLosers (fun k => net (fetches (trace (getTopGainers net)) + k)))
   = Ok (topLosers st)) /\
  (API_KEY = "" \/ API_KEY = "YOUR_API_KEY_HERE" ->
   error st = Some keyMissingMessage /\ events = []) /\
  (forall e, result (getTopGainers net) = Throw e ->
   fetches events <= fetches (trace (getTopGainers net))) /\
  fetches events <= 8.
Proof.
  cbv zeta. unfold Market.fetchData.
  destruct (str_eqb API_KEY "" || str_eqb API_KEY "YOUR_API_KEY_HERE") eqn:Hkey.
  { simpl. split; [done |]. split; [by right |]. split; [done |].
    split; [done |]. split; [intros; unfold fetches; simpl; lia |].
    unfold fetches. simpl. lia. }
  apply orb_false_iff in Hkey as [Hempty Hplaceholder].
  apply str_eqb_false in Hempty, Hplaceholder.
  destruct (movers_fetches net) as [Hg _].
  destruct (movers_fetches (fun k => net (fetches (trace (getTopGainers net)) + k)))
    as [_ Hl].
  destruct (result (getTopGainers net)) as [gainers | e] eqn:Hgainers.
  2:{ cbn [fst snd loading error topGainers topLosers].
      split; [done |]. split; [by right |]. split; [done |].
      split; [intros [? | ?]; contradiction |]. split; [intros; lia | lia]. }
  destruct (result (getTopLosers _)) as [losers | e] eqn:Hlosers;
    cbn [fst snd loading error topGainers topLosers].
  - split; [done |]. split; [by left |]. split; [done |].
    split; [intros [? | ?]; contradiction |].
    split; [intros e [=] |]. rewrite fetches_app. lia.
  - split; [done |]. split; [by right |]. split; [done |].
    split; [intros [? | ?]; contradiction |].
    split; [intros e' [=] |]. rewrite fetches_app. lia.
Qed.

End MarketFacts.

Section HookFacts.
Import Js StockData.

(** X16: the movers screens show the grid exactly when the fetch succeeded
    with at least one item: after [fetchData], [renderContent] is the grid
    of the fetched items if and only if the fetch function returned a list
    that is not empty; it is never the loading state, and the hook is
    neither loading nor refreshing. *)
Theorem grid_shown_iff_items_fetched emptyStateMessage fetched st items :
  (renderContent (fetchData emptyStateMessage fetched st) = StockGrid items
   <-> fetched = Ok items /\ items <> []) /\
  renderContent (fetchData emptyStateMessage fetched st) <> LoadingState /\
  loading (fetchData emptyStateMessage fetched st) = false /\
  refreshing (fetchData emptyStateMessage fetched st) = false.
Proof.
  unfold fetchData, settle, renderContent.
  destruct fetched as [got | e]; simpl.
  - destruct got as [|x got]; simpl.
    + split; [| split; [| done]].
      * split; [| by intros [[= <-] ?]].
        destruct (negb (str_eqb emptyStateMessage "")); discriminate.
      * destruct (negb (str_eqb emptyStateMessage "")); discriminate.
    + split; [| done]. split.
      * intros [= <-]. by split.
      * by intros [[= <-] _].
  - split; [| split; [| done]].
    + split; [| by intros [[=] _]].
      destruct (negb (str_eqb (message e) "")); discriminate.
    + destruct (negb (str_eqb (message e) "")); discriminate.
Qed.

End HookFacts.

Section CardFacts.
Import StockCard.


End CardFacts.

Section OverviewSessionFacts.
Import Js StockDetails OverviewSession.

Variable API_KEY typeErrorMessage conversionMessage : string.
Variable net : nat -> string -> Api.FetchOutcome.

Local Abbreviation fetchStockOverview :=
  (StockDetails.fetchStockOverview API_KEY typeErrorMessage conversionMessage net).
Local Abbreviation requests := (OverviewSession.requests API_KEY typeErrorMessage conversionMessage net).

Lemma fetchData_try_clean settled data :
  fetchData_try typeErrorMessage conversionMessage settled = Ok data ->
  Api.sentinel_message data = None.
Proof.
  assert (forall v, @Api.new_Error conversionMessage JsVal v <> Ok data) as Hnew.
  { intros v. unfold Api.new_Error, to_string. by destruct (text v). }
  unfold fetchData_try, Api.sentinel_message, Api.sentinel.
  destruct settled as [e | r]; [discriminate |].
  destruct (negb (Api.ok r)); [discriminate |].
  destruct (Api.body r) as [payload | e]; [| discriminate].
  destruct payload as [| | b | n | t | items | fields]; simpl; try discriminate;
    try (by intros [= <-]).
  destruct (truthy (assoc "Error Message" fields)) eqn:Hmessage; simpl.
  { rewrite Hmessage. intros H. by apply Hnew in H. }
  destruct (truthy (assoc "Note" fields)) eqn:Hnote;
    [intros H; by apply Hnew in H |].
  intros [= <-]. simpl. by rewrite Hmessage, Hnote.
Qed.

(** One call changes the cache at most by adding, under the key of its
    symbol, a payload that signals no error. *)
Lemma fetchStockOverview_cache symbol (w : World) k v :
  cache (fetchStockOverview symbol w).2 !! k = Some v ->
  cache w !! k = Some v
  \/ (k = cacheKey symbol /\ Api.sentinel_message v = None
      /\ (fetchStockOverview symbol w).1 = Ok v).
Proof.
  unfold StockDetails.fetchStockOverview, fetchData.
  destruct (cache w !! cacheKey symbol) as [hit|] eqn:Hhit; [by left |].
  destruct (fetchData_try typeErrorMessage conversionMessage _) as [data | e] eqn:Htry; simpl;
    [| by left].
  destruct (decide (k = cacheKey symbol)) as [-> | Hne].
  - rewrite lookup_insert_eq. intros [= <-]. right.
    split; [done |]. split; [| done]. by eapply fetchData_try_clean.
  - rewrite lookup_insert_ne by done. by left.
Qed.

Lemma fetchStockOverview_keeps symbol (w : World) k v :
  cache w !! k = Some v -> cache (fetchStockOverview symbol w).2 !! k = Some v.
Proof.
  intros Hk. unfold StockDetails.fetchStockOverview, fetchData.
  destruct (cache w !! cacheKey symbol) as [hit|] eqn:Hhit; [done |].
  destruct (fetchData_try typeErrorMessage conversionMessage _); simpl; [| done].
  rewrite lookup_insert_ne; [done | congruence].
Qed.

Lemma requests_keeps symbols (w : World) k v :
  cache w !! k = Some v -> cache (requests symbols w) !! k = Some v.
Proof.
  revert w. induction symbols as [|symbol symbols IH]; intros w Hk; [done |].
  simpl. apply IH. by apply fetchStockOverview_keeps.
Qed.

(** X18: the overview cache only ever holds good payloads: after any
    sequence of requests on an empty cache, every entry is stored under the
    key of a requested symbol and is a payload that signals no error. *)
Theorem overview_cache_holds_clean_payloads (symbols : list string) k v :
  cache (requests symbols (mkWorld ∅ [])) !! k = Some v ->
  Api.sentinel_message v = None /\
  exists symbol, symbol ∈ symbols /\ k = cacheKey symbol.
Proof.
  induction symbols as [|symbol symbols IH] using rev_ind.
  - simpl. by rewrite lookup_empty.
  - unfold OverviewSession.requests. rewrite fold_left_app. simpl.
    intros Hk. apply fetchStockOverview_cache in Hk as [Hold | (-> & Hclean & _)].
    + destruct (IH Hold) as (Hclean & s & Hs & ->).
      split; [done |]. exists s. split; [| done]. apply elem_of_app. by left.
    + split; [done |]. exists symbol. split; [| done].
      apply elem_of_app. right. by apply list_elem_of_singleton.
Qed.

(** X19: a cached overview never expires: once a request for a symbol has
    succeeded, every later request for that symbol returns the same payload
    without a network fetch, whatever was requested in between and whatever
    the provider would answer now. *)
Theorem overview_cache_never_expires (symbol : string) (others : list string)
    (w : World) payload :
  (fetchStockOverview symbol w).1 = Ok payload ->
  let later := requests others (fetchStockOverview symbol w).2 in
  fetchStockOverview symbol later = (Ok payload, later).
Proof.
  intros Hfirst. cbv zeta.
  assert (cache (fetchStockOverview symbol w).2 !! cacheKey symbol = Some payload)
    as Hcached.
  { revert Hfirst. unfold StockDetails.fetchStockOverview, fetchData.
    destruct (cache w !! cacheKey symbol) as [hit|] eqn:Hhit; simpl.
    - by intros [= <-].
    - destruct (fetchData_try typeErrorMessage conversionMessage _); simpl; [| discriminate].
      intros [= <-]. apply lookup_insert_eq. }
  apply (requests_keeps others) in Hcached.
  unfold StockDetails.fetchStockOverview at 1. by rewrite Hcached.
Qed.

End OverviewSessionFacts.

Section SearchDegradesFacts.
Import Js Explore.

(** X20: the hybrid search degrades to the empty list.  When the remote
    symbol search fails, or answers with a payload whose bestMatches is not
    an array (a rate-limit note, say) or is an array with a [null] entry,
    the debounced search of a query that is not blank commits the empty
    list and ends the loading state, raising no error, whatever gainers and
    losers the screen has loaded: the function that runs is the one of the
    first render, so the loaded lists contribute nothing. *)
Theorem search_degrades_to_empty (toLowerCase : string -> string)
    typeErrorMessage (searchApi : string -> Exc JsVal)
    (current : Render) (query : string) (st : SearchState) :
  trim query <> "" ->
  (exists e, searchApi (trim query) = Throw e)
  \/ (exists data, searchApi (trim query) = Ok data
                   /\ (isArray (field data "bestMatches") = false
                       \/ exists items, field data "bestMatches" = JArr items
                                        /\ existsb is_nullish items = true)) ->
  debouncedSearch toLowerCase typeErrorMessage searchApi current query st
  = mkSearch [] false.
Proof.
  intros Hquery Hremote.
  unfold debouncedSearch, useMemo_once, searchCallback.
  rewrite bool_decide_true.
  2:{ destruct (trim query); [done | simpl; lia]. }
  unfold fetchSearchResults, useCallback_lists, combinedResults. cbn.
  rewrite apiResults_remote.
  assert (remoteMatches (searchApi (trim query)) = []) as ->; [| reflexivity].
  unfold remoteMatches.
  destruct Hremote as [[e ->] | (data & -> & [Hshape | (items & -> & Hnull)])].
  - reflexivity.
  - by destruct (field data "bestMatches").
  - by rewrite Hnull.
Qed.

End SearchDegradesFacts.

Lemma toggle_then_loadWatchlist_witness :
  WatchlistScreens.loadWatchlist "Tech"
    (WatchlistModal.storage
       (WatchlistModal.handleToggle "NVDA" "Tech" Samples.tech_device))
  = ["MSFT"; "NVDA"].
Proof.
  destruct (toggle_then_loadWatchlist "NVDA" "Tech" "Tech" Samples.tech_device eq_refl)
    as (_ & Hsame & _).
  destruct (Hsame eq_refl) as [_ Happend].
  - exists (WatchlistModal.mkWatchlist "Tech" ["MSFT"]).
    split; [apply list_elem_of_here | reflexivity].
  - apply Happend. vm_compute. intros Hin.
    apply list_elem_of_singleton in Hin. discriminate Hin.
Defined.

Lemma created_watchlist_is_listed_witness :
  WatchlistScreens.load
    (WatchlistModal.storage (WatchlistModal.create " Energy " Samples.tech_device)) []
  = ["Tech"; "Energy"].
Proof.
  destruct (created_watchlist_is_listed " Energy " Samples.tech_device [])
    as [Hlisted _].
  - reflexivity.
  - vm_compute. discriminate.
  - intros wl Hwl. apply list_elem_of_singleton in Hwl as ->. vm_compute. discriminate.
  - rewrite Hlisted. reflexivity.
Defined.

Lemma validateStockData_idempotent_witness :
  Api.validateStockData "" "" (Js.JArr [Samples.infinite_change])
  = Js.Ok [Samples.infinite_change].
Proof.
  destruct (validateStockData_idempotent "" ""
              (Js.JArr [Samples.infinite_change; Js.JNull])
              [Samples.infinite_change]) as [Hagain _].
  - reflexivity.
  - exact Hagain.
Defined.

Lemma makeRequest_returns_clean_payload_witness :
  Api.sentinel_message Samples.movers_payload = None.
Proof.
  destruct (makeRequest_returns_clean_payload "" "" "demo" "" Samples.movers_served
              Api.TOP_GAINERS_LOSERS 0 Samples.movers_payload) as [Hclean _].
  - reflexivity.
  - exact Hclean.
Defined.

Lemma overview_cache_holds_clean_payloads_witness :
  Api.sentinel_message Samples.overview_payload = None.
Proof.
  destruct (overview_cache_holds_clean_payloads "demo" "" "" Samples.overview_once
              ["IBM"; "IBM"] (StockDetails.cacheKey "IBM") Samples.overview_payload)
    as [Hclean _].
  - reflexivity.
  - exact Hclean.
Defined.

Lemma overview_cache_never_expires_witness :
  let later := OverviewSession.requests "demo" "" "" Samples.overview_once ["AAPL"; "MSFT"]
                 (StockDetails.fetchStockOverview "demo" "" "" Samples.overview_once
                    "IBM" Samples.emptyWorld).2 in
  StockDetails.fetchStockOverview "demo" "" "" Samples.overview_once "IBM" later
  = (Js.Ok Samples.overview_payload, later).
Proof.
  apply (overview_cache_never_expires "demo" "" "" Samples.overview_once "IBM"
           ["AAPL"; "MSFT"] Samples.emptyWorld Samples.overview_payload).
  reflexivity.
Defined.

Lemma search_degrades_to_empty_witness :
  Explore.debouncedSearch Samples.asciiLowerCase "" Samples.search_down
    (Explore.mkRender Samples.local_gainers []) "AA" Samples.idleSearch
  = Explore.mkSearch [] false.
Proof.
  apply (search_degrades_to_empty Samples.asciiLowerCase "" Samples.search_down
           (Explore.mkRender Samples.local_gainers []) "AA" Samples.idleSearch).
  - vm_compute. discriminate.
  - left. by eexists.
Defined.
